(** * Verification of the microphone analyser component (src/app.vue)

    Shallow embedding of the <script setup> part of [app.vue]: the reactive
    refs and module-level handles become the fields of a [state] record, the
    functions [start], [analyzeWithTone], [updateFrequencyBars] and [stop]
    become computations in a small state-and-exception monad.

    Numbers.  [analyser.getValue()] of Tone's fft [Analyser] returns the
    Float32Array filled by [getFloatFrequencyData]: dB values, finite or
    -Infinity for a bin of zero magnitude.  Every value read from it and
    every number the code computes from it is a JavaScript number
    ([jsnum]): a finite value, modelled as an exact rational ([Q]), so the
    floating-point rounding of sums and quotients is idealised away, or
    NaN, +Infinity, -Infinity, with the IEEE rules of [Math.abs], [+], [/],
    [*], [Math.round], [Math.min], [Math.max] and the comparisons.

    Asynchrony.  [start()] is an async function: it runs up to
    [await mic.open()] and returns to the event loop; the rest of its body
    runs when the promise of [mic.open()] settles, and other events (a new
    click on Start, an animation frame, Stop, the unmount) may come in
    between.  The two halves are [start_until_await] and [start_after_open];
    [start] is the two run back to back, the schedule in which the request
    for the microphone is answered before any other event.

    The platform capabilities (Tone's [Analyser] and [UserMedia], the
    browser's [requestAnimationFrame]) are not part of the repository: what
    they do is given as an explicit outcome argument of each operation
    ([acquire_outcome], [poll_outcome]), so every failure they can raise is
    an input of the model. *)

From Stdlib Require Import String List ZArith QArith Qround Qabs Bool Lia.
Import ListNotations.
Open Scope Z_scope.

(** ** JavaScript numbers *)

Inductive jsnum :=
| JFin (q : Q)
| JNaN
| JPInf
| JNInf.

(** [Math.abs(x)]. *)
Definition js_abs (x : jsnum) : jsnum :=
  match x with
  | JFin q => JFin (Qabs q)
  | JNaN => JNaN
  | JPInf | JNInf => JPInf
  end.

(** [x + y]. *)
Definition js_add (x y : jsnum) : jsnum :=
  match x, y with
  | JFin a, JFin b => JFin (a + b)
  | JNaN, _ | _, JNaN => JNaN
  | JPInf, JNInf | JNInf, JPInf => JNaN
  | JPInf, _ | _, JPInf => JPInf
  | JNInf, _ | _, JNInf => JNInf
  end.

(** [x / b] for an integer divisor [b] (a length or a count; [0] is +0). *)
Definition js_div (x : jsnum) (b : Z) : jsnum :=
  match x with
  | JFin q =>
      if Z.eqb b 0 then
        if Qeq_bool q 0 then JNaN
        else if Qle_bool 0 q then JPInf else JNInf
      else JFin (q / inject_Z b)
  | JNaN => JNaN
  | JPInf => if Z.ltb b 0 then JNInf else JPInf
  | JNInf => if Z.ltb b 0 then JPInf else JNInf
  end.

(** [x * c] for a positive finite constant [c]. *)
Definition js_mul_pos (x : jsnum) (c : Q) : jsnum :=
  match x with
  | JFin q => JFin (q * c)
  | other => other
  end.

(** [Math.min(a, x)] for a finite first argument. *)
Definition js_min (a : Q) (x : jsnum) : jsnum :=
  match x with
  | JFin q => JFin (if Qle_bool a q then a else q)
  | JNaN => JNaN
  | JPInf => JFin a
  | JNInf => JNInf
  end.

(** [Math.max(a, x)] for a finite first argument. *)
Definition js_max (a : Q) (x : jsnum) : jsnum :=
  match x with
  | JFin q => JFin (if Qle_bool q a then a else q)
  | JNaN => JNaN
  | JPInf => JPInf
  | JNInf => JFin a
  end.

(** [Math.round] on a finite number: the nearest integer, halves upward. *)
Definition js_round (x : Q) : Z := Qfloor (x + (1 # 2)).

(** [Math.round(x)]: non-finite values are returned as they are. *)
Definition js_round_num (x : jsnum) : jsnum :=
  match x with
  | JFin q => JFin (inject_Z (js_round q))
  | other => other
  end.

(** [x > y]: false as soon as one side is NaN. *)
Definition js_gt (x y : jsnum) : bool :=
  match x, y with
  | JNaN, _ | _, JNaN => false
  | JFin a, JFin b => negb (Qle_bool a b)
  | JPInf, JPInf => false
  | JPInf, _ => true
  | JNInf, _ => false
  | JFin _, JPInf => false
  | JFin _, JNInf => true
  end.

(** [x >= y]: false as soon as one side is NaN. *)
Definition js_ge (x y : jsnum) : bool :=
  match x, y with
  | JNaN, _ | _, JNaN => false
  | JFin a, JFin b => Qle_bool b a
  | JPInf, _ => true
  | _, JNInf => true
  | _, _ => false
  end.

(** [for (let i = 0; i < n; i++) body]. *)
Definition for_upto {A : Type} (n : nat) (body : nat -> A -> A) (init : A) : A :=
  fold_left (fun acc i => body i acc) (seq 0 n) init.

(** [arr[i] = v] on a JavaScript array.  In range it replaces the element;
    out of range JavaScript grows the array.  The only writer of an array in
    the component ([updateFrequencyBars]) writes the indices [0, 1, ...] in
    order, so a write out of range is always at index [length arr], where
    the array grows by exactly this element. *)
Fixpoint js_set {A : Type} (l : list A) (i : nat) (v : A) : list A :=
  match l, i with
  | [], _ => [v]
  | _ :: r, O => v :: r
  | x :: r, S i' => x :: js_set r i' v
  end.

(** [values[i]] on a Float32Array, [i] in range. *)
Definition at_ (values : list jsnum) (i : nat) : jsnum := nth i values (JFin 0).

(** ** The pure part of an analysis cycle (lines 104-126, 136-152) *)

Section Reduce.

Variable values : list jsnum.

(** Lines 105-110: [sum += Math.abs(values[i])], [average = sum / length],
    [volume = Math.round(average * 1000)] (length is positive there). *)
Definition volume_sum : jsnum :=
  for_upto (length values) (fun i sum => js_add sum (js_abs (at_ values i))) (JFin 0).

Definition computed_volume : jsnum :=
  js_round_num (js_mul_pos (js_div volume_sum (Z.of_nat (length values))) 1000).

(** Lines 116-123: the peak search, strict [>] against a running maximum
    that starts at 0. *)
Definition peak_search : nat * jsnum :=
  for_upto (length values)
    (fun i '(maxIndex, maxValue) =>
       if js_gt (js_abs (at_ values i)) maxValue
       then (i, js_abs (at_ values i))
       else (maxIndex, maxValue))
    (O, JFin 0).

(** Line 126: [Math.round(maxIndex * (44100 / 2) / values.length)]; the
    index is an integer and the length positive, so the value is finite. *)
Definition computed_frequency : Z :=
  js_round (inject_Z (Z.of_nat (fst peak_search)) * (44100 # 2)
            / inject_Z (Z.of_nat (length values)))%Q.

(** Lines 137-150, one bar: the sum over its group, then
    [Math.min(100, (sum / samplesPerBar) * 500)]. *)
Definition samplesPerBar : nat := Nat.div (length values) 32.

Definition bar_sum (i : nat) : jsnum :=
  for_upto samplesPerBar
    (fun j sum =>
       let index := (i * samplesPerBar + j)%nat in
       if Nat.ltb index (length values) then js_add sum (js_abs (at_ values index))
       else sum)
    (JFin 0).

Definition bar_value (i : nat) : jsnum :=
  js_min 100%Q (js_mul_pos (js_div (bar_sum i) (Z.of_nat samplesPerBar)) 500%Q).

(** [updateFrequencyBars(values)]: writes [frequencyBars.value[i]] for
    [i = 0 .. 31]. *)
Definition updateFrequencyBars (bars : list jsnum) : list jsnum :=
  for_upto 32 (fun i acc => js_set acc i (bar_value i)) bars.

End Reduce.

(** ** Component state *)

(** A platform object created by the component and not yet disposed. *)
Inductive resource :=
| RAnalyser (id : nat)
| RMic (id : nat).

Definition resource_eqb (a b : resource) : bool :=
  match a, b with
  | RAnalyser x, RAnalyser y => Nat.eqb x y
  | RMic x, RMic y => Nat.eqb x y
  | _, _ => false
  end.

(** The refs of lines 55-59, the module-level handles of lines 61-63, and
    the platform side: the objects still alive ([live]), the microphones
    currently open, the pending animation-frame callbacks, the counters
    the platform draws fresh object and frame ids from, and the calls of
    [start()] suspended at [await mic.open()] (by the microphone opened). *)
Record state := mkState {
  frequency : Z;
  volume : jsnum;
  isRecording : bool;
  error : string;
  frequencyBars : list jsnum;
  mic : option nat;
  analyser : option nat;
  animationFrameId : option positive;
  live : list resource;
  openMics : list nat;
  nextId : nat;
  scheduled : list positive;
  nextFrame : positive;
  pendingOpens : list nat
}.

Definition set_frequency (v : Z) (s : state) : state :=
  mkState v (volume s) (isRecording s) (error s) (frequencyBars s) (mic s) (analyser s) (animationFrameId s) (live s) (openMics s) (nextId s) (scheduled s) (nextFrame s) (pendingOpens s).
Definition set_volume (v : jsnum) (s : state) : state :=
  mkState (frequency s) v (isRecording s) (error s) (frequencyBars s) (mic s) (analyser s) (animationFrameId s) (live s) (openMics s) (nextId s) (scheduled s) (nextFrame s) (pendingOpens s).
Definition set_isRecording (v : bool) (s : state) : state :=
  mkState (frequency s) (volume s) v (error s) (frequencyBars s) (mic s) (analyser s) (animationFrameId s) (live s) (openMics s) (nextId s) (scheduled s) (nextFrame s) (pendingOpens s).
Definition set_error (v : string) (s : state) : state :=
  mkState (frequency s) (volume s) (isRecording s) v (frequencyBars s) (mic s) (analyser s) (animationFrameId s) (live s) (openMics s) (nextId s) (scheduled s) (nextFrame s) (pendingOpens s).
Definition set_frequencyBars (v : list jsnum) (s : state) : state :=
  mkState (frequency s) (volume s) (isRecording s) (error s) v (mic s) (analyser s) (animationFrameId s) (live s) (openMics s) (nextId s) (scheduled s) (nextFrame s) (pendingOpens s).
Definition set_mic (v : option nat) (s : state) : state :=
  mkState (frequency s) (volume s) (isRecording s) (error s) (frequencyBars s) v (analyser s) (animationFrameId s) (live s) (openMics s) (nextId s) (scheduled s) (nextFrame s) (pendingOpens s).
Definition set_analyser (v : option nat) (s : state) : state :=
  mkState (frequency s) (volume s) (isRecording s) (error s) (frequencyBars s) (mic s) v (animationFrameId s) (live s) (openMics s) (nextId s) (scheduled s) (nextFrame s) (pendingOpens s).
Definition set_animationFrameId (v : option positive) (s : state) : state :=
  mkState (frequency s) (volume s) (isRecording s) (error s) (frequencyBars s) (mic s) (analyser s) v (live s) (openMics s) (nextId s) (scheduled s) (nextFrame s) (pendingOpens s).
Definition set_live (v : list resource) (s : state) : state :=
  mkState (frequency s) (volume s) (isRecording s) (error s) (frequencyBars s) (mic s) (analyser s) (animationFrameId s) v (openMics s) (nextId s) (scheduled s) (nextFrame s) (pendingOpens s).
Definition set_openMics (v : list nat) (s : state) : state :=
  mkState (frequency s) (volume s) (isRecording s) (error s) (frequencyBars s) (mic s) (analyser s) (animationFrameId s) (live s) v (nextId s) (scheduled s) (nextFrame s) (pendingOpens s).
Definition set_nextId (v : nat) (s : state) : state :=
  mkState (frequency s) (volume s) (isRecording s) (error s) (frequencyBars s) (mic s) (analyser s) (animationFrameId s) (live s) (openMics s) v (scheduled s) (nextFrame s) (pendingOpens s).
Definition set_scheduled (v : list positive) (s : state) : state :=
  mkState (frequency s) (volume s) (isRecording s) (error s) (frequencyBars s) (mic s) (analyser s) (animationFrameId s) (live s) (openMics s) (nextId s) v (nextFrame s) (pendingOpens s).
Definition set_nextFrame (v : positive) (s : state) : state :=
  mkState (frequency s) (volume s) (isRecording s) (error s) (frequencyBars s) (mic s) (analyser s) (animationFrameId s) (live s) (openMics s) (nextId s) (scheduled s) v (pendingOpens s).
Definition set_pendingOpens (v : list nat) (s : state) : state :=
  mkState (frequency s) (volume s) (isRecording s) (error s) (frequencyBars s) (mic s) (analyser s) (animationFrameId s) (live s) (openMics s) (nextId s) (scheduled s) (nextFrame s) v.

(** The state when the component is mounted. *)
Definition zero_bars : list jsnum := repeat (JFin 0%Q) 32.

Definition initial_state : state :=
  mkState 0 (JFin (-100)%Q) false EmptyString zero_bars None None None [] [] O [] 1%positive [].


(** ** A state-and-exception monad for the component's code *)

Inductive exn := Thrown (what : string).

Definition M (A : Type) : Type := state -> (A + exn) * state.

Definition ret {A : Type} (a : A) : M A := fun s => (inl a, s).

Definition bind {A B : Type} (m : M A) (k : A -> M B) : M B :=
  fun s => match m s with
           | (inl a, s') => k a s'
           | (inr e, s') => (inr e, s')
           end.

Definition throw {A : Type} (e : exn) : M A := fun s => (inr e, s).

(** [try { body } catch (err) { handler }] *)
Definition try_catch {A : Type} (body : M A) (handler : exn -> M A) : M A :=
  fun s => match body s with
           | (inr e, s') => handler e s'
           | r => r
           end.

Definition get : M state := fun s => (inl s, s).

Definition modify (f : state -> state) : M unit := fun s => (inl tt, f s).

Notation "x <- m ;; k" := (bind m (fun x => k))
  (at level 61, m at next level, right associativity).
Notation "m ;; k" := (bind m (fun _ => k)) (at level 61, right associativity).

(** ** The platform capabilities *)

(** What the platform does when [start] acquires its resources; the last
    two are the two ways the promise of [mic.open()] settles. *)
Inductive acquire_outcome :=
| AnalyserCtorThrows      (* new Analyser('fft', 2048) throws *)
| UserMediaCtorThrows     (* new UserMedia() throws *)
| ConnectThrows           (* mic.connect(analyser) throws *)
| OpenRejects             (* await mic.open() rejects: no permission, no device *)
| OpenResolves.

Definition acquire_outcome_eq_dec (a b : acquire_outcome) : {a = b} + {a <> b}.
Proof. decide equality. Defined.

(** What [analyser.getValue()] does in one cycle. *)
Inductive poll_outcome :=
| GetValueThrows
| GetValueReturns (values : option (list jsnum)).

Definition alloc (mk : nat -> resource) : M nat :=
  fun s => (inl (nextId s),
            set_nextId (S (nextId s)) (set_live (mk (nextId s) :: live s) s)).

Definition dispose (r : resource) : M unit :=
  modify (fun s => set_live (filter (fun x => negb (resource_eqb x r)) (live s)) s).

Definition new_Analyser (o : acquire_outcome) : M nat :=
  match o with
  | AnalyserCtorThrows => throw (Thrown "Analyser")
  | _ => alloc RAnalyser
  end.

Definition new_UserMedia (o : acquire_outcome) : M nat :=
  match o with
  | UserMediaCtorThrows => throw (Thrown "UserMedia")
  | _ => alloc RMic
  end.

Definition mic_connect (o : acquire_outcome) : M unit :=
  match o with
  | ConnectThrows => throw (Thrown "connect")
  | _ => ret tt
  end.

(** [mic.open()] is called: its promise is pending. *)
Definition mic_open_call (m : nat) : M unit :=
  modify (fun s => set_pendingOpens (m :: pendingOpens s) s).

(** One pending call fewer. *)
Fixpoint remove_first (m : nat) (l : list nat) : list nat :=
  match l with
  | [] => []
  | x :: r => if Nat.eqb x m then r else x :: remove_first m r
  end.

(** The promise of [mic.open()] settles: the stream is acquired, or the
    [await] throws. *)
Definition mic_open (o : acquire_outcome) (m : nat) : M unit :=
  match o with
  | OpenRejects => throw (Thrown "NotAllowedError")
  | _ => modify (fun s => set_openMics (m :: openMics s) s)
  end.

Definition mic_close (m : nat) : M unit :=
  modify (fun s => set_openMics (filter (fun x => negb (Nat.eqb x m)) (openMics s)) s).

Definition getValue (p : poll_outcome) : M (option (list jsnum)) :=
  match p with
  | GetValueThrows => throw (Thrown "getValue")
  | GetValueReturns v => ret v
  end.

Definition requestAnimationFrame : M positive :=
  fun s => (inl (nextFrame s),
            set_nextFrame (Pos.succ (nextFrame s))
              (set_scheduled (scheduled s ++ [nextFrame s]) s)).

Definition cancelAnimationFrame (id : positive) : M unit :=
  modify (fun s => set_scheduled (filter (fun x => negb (Pos.eqb x id)) (scheduled s)) s).

(** ** The component's functions *)

(** [stop()], lines 154-174. *)
Definition stop : M unit :=
  s <- get ;;
  (match animationFrameId s with
   | Some id => cancelAnimationFrame id ;; modify (set_animationFrameId None)
   | None => ret tt
   end) ;;
  s <- get ;;
  (match mic s with
   | Some m => mic_close m ;; dispose (RMic m) ;; modify (set_mic None)
   | None => ret tt
   end) ;;
  s <- get ;;
  (match analyser s with
   | Some a => dispose (RAnalyser a) ;; modify (set_analyser None)
   | None => ret tt
   end) ;;
  modify (set_isRecording false) ;;
  modify (set_frequencyBars zero_bars).

(** The body of [if (values && values.length > 0) { ... }], lines 104-126. *)
Definition publish (values : list jsnum) : M unit :=
  modify (set_volume (computed_volume values)) ;;
  s <- get ;;
  modify (set_frequencyBars (updateFrequencyBars values (frequencyBars s))) ;;
  modify (set_frequency (computed_frequency values)).

Definition is_null {A : Type} (o : option A) : bool :=
  match o with None => true | Some _ => false end.

(** [analyzeWithTone()], lines 96-134: one analysis cycle, which schedules
    itself as the next animation-frame callback. *)
Definition analyzeWithTone (p : poll_outcome) : M unit :=
  s <- get ;;
  if is_null (analyser s) || negb (isRecording s) then ret tt
  else
    try_catch
      (vs <- getValue p ;;
       (match vs with
        | Some values => if Nat.ltb 0 (length values) then publish values else ret tt
        | None => ret tt
        end) ;;
       id <- requestAnimationFrame ;;
       modify (set_animationFrameId (Some id)))
      (fun _ => stop).

Definition start_error_message : string :=
  "Failed to access microphone. Please check permissions and try again.".

(** The [catch] block of [start()], lines 89-93. *)
Definition start_catch : M unit :=
  modify (set_error start_error_message) ;;
  modify (set_isRecording false).

(** [start()], lines 70-83, from the call to the [await]: the function
    calls [mic.open()] and returns to the event loop, suspended on the
    opening of microphone [m] ([Some m]); or it has finished ([None]):
    on the guard of line 71, or after an exception caught by lines 89-93. *)
Definition start_until_await (o : acquire_outcome) : M (option nat) :=
  s <- get ;;
  if isRecording s then ret None
  else
    try_catch
      (modify (set_error EmptyString) ;;
       a <- new_Analyser o ;;
       modify (set_analyser (Some a)) ;;
       m <- new_UserMedia o ;;
       modify (set_mic (Some m)) ;;
       mic_connect o ;;
       mic_open_call m ;;
       ret (Some m))
      (fun _ => start_catch ;; ret None).

(** [start()], lines 83-93, after the [await]: run when the promise of
    [mic.open()] of microphone [m] settles.  Lines 84 and 87 use the
    module-level refs and handles as they are at that moment. *)
Definition start_after_open (o : acquire_outcome) (m : nat) (p : poll_outcome) : M unit :=
  modify (fun s => set_pendingOpens (remove_first m (pendingOpens s)) s) ;;
  try_catch
    (mic_open o m ;;
     modify (set_isRecording true) ;;
     analyzeWithTone p)
    (fun _ => start_catch).

(** A click on Start whose request for the microphone is answered before
    any other event: the two halves of [start()] back to back. *)
Definition start (o : acquire_outcome) (p : poll_outcome) : M unit :=
  pm <- start_until_await o ;;
  match pm with
  | None => ret tt
  | Some m => start_after_open o m p
  end.

(** The host fires the oldest pending animation-frame callback, which runs
    [analyzeWithTone]; with no callback pending nothing happens. *)
Definition fire_frame (p : poll_outcome) : M unit :=
  s <- get ;;
  match scheduled s with
  | [] => ret tt
  | id :: rest => modify (set_scheduled rest) ;; analyzeWithTone p
  end.

Fixpoint fire_frames (ps : list poll_outcome) : M unit :=
  match ps with
  | [] => ret tt
  | p :: ps' => fire_frame p ;; fire_frames ps'
  end.

Definition run {A : Type} (m : M A) (s : state) : state := snd (m s).



(** ** Properties and concrete sessions used by the statements below *)

(** A published bar value as the display needs it: a finite percentage. *)
Definition in_percent_range (b : jsnum) : Prop :=
  exists q, b = JFin q /\ (0 <= q <= 100)%Q.

(** Not NaN: [getFloatFrequencyData] never writes NaN. *)
Definition not_nan (x : jsnum) : Prop := x <> JNaN.

(** A non-negative value: finite and at least 0, or +Infinity. *)
Definition js_nonneg (x : jsnum) : Prop :=
  (exists q, x = JFin q /\ (0 <= q)%Q) \/ x = JPInf.

(** The order of the extended reals, on JavaScript numbers other than NaN. *)
Definition js_le (x y : jsnum) : Prop :=
  match x, y with
  | JNaN, _ | _, JNaN => False
  | JNInf, _ => True
  | _, JPInf => True
  | JFin a, JFin b => (a <= b)%Q
  | _, _ => False
  end.

Definition js_lt (x y : jsnum) : Prop := js_le x y /\ ~ js_le y x.

(** The peak index as the spec words it: the lowest index attaining the
    largest absolute magnitude. *)
Definition first_argmax (values : list jsnum) (i : nat) : Prop :=
  (i < length values)%nat /\
  (forall j, (j < length values)%nat -> js_le (js_abs (at_ values j)) (js_abs (at_ values i))) /\
  (forall j, (j < i)%nat -> js_lt (js_abs (at_ values j)) (js_abs (at_ values i))).

(** The volume as the spec words it: the mean of the absolute magnitudes,
    for a frame of finite samples. *)
Definition mean_abs (values : list Q) : Q :=
  (fold_left (fun acc v => acc + Qabs v) values 0 / inject_Z (Z.of_nat (length values)))%Q.

(** The loop invariant of the peak search after [k] iterations. *)
Definition peak_inv (values : list jsnum) (k : nat) (st : nat * jsnum) : Prop :=
  let '(mi, mv) := st in
  (forall j, (j < k)%nat -> js_le (js_abs (at_ values j)) mv) /\
  js_le (JFin 0) mv /\
  ((mi = O /\ mv = JFin 0) \/
   ((mi < k)%nat /\ mv = js_abs (at_ values mi) /\
    (forall j, (j < mi)%nat -> js_lt (js_abs (at_ values j)) mv))).

(** An analysis cycle that publishes nothing and raises nothing. *)
Definition no_update (s : state) (r : (unit + exn) * state) : Prop :=
  fst r = inl tt /\
  frequency (snd r) = frequency s /\
  volume (snd r) = volume s /\
  frequencyBars (snd r) = frequencyBars s /\
  error (snd r) = error s /\
  isRecording (snd r) = isRecording s.

(** [isRecording] holds exactly when both platform objects are held, and no
    platform object is alive when it does not hold. *)
Definition session_invariant (s : state) : Prop :=
  if isRecording s then
    exists m a, mic s = Some m /\ analyser s = Some a /\
                In (RMic m) (live s) /\ In (RAnalyser a) (live s)
  else live s = [].

(** A 2048-sample frame with a single sample of magnitude 1 at index 1024. *)
Definition scenarioB : list jsnum :=
  repeat (JFin 0) 1024 ++ [JFin 1] ++ repeat (JFin 0) 1023.

(** A session started successfully, whose first cycle reads [scenarioB]. *)
Definition session_B : state :=
  run (start OpenResolves (GetValueReturns (Some scenarioB))) initial_state.

(** A start whose [await mic.open()] rejects (permission denied). *)
Definition session_denied : state :=
  run (start OpenRejects (GetValueReturns None)) initial_state.

(** A start whose [new UserMedia()] throws (no input device). *)
Definition session_no_device : state :=
  run (start UserMediaCtorThrows (GetValueReturns None)) initial_state.

(** ** The rest of the component *)

(** [volumePercentage], lines 65-68: [Math.max(0, Math.min(100, volume + 100))]. *)
Definition volumePercentage (volume : jsnum) : jsnum :=
  js_max 0 (js_min 100 (js_add volume (JFin 100))).

(** The class binding of the volume meter, lines 27-31: the flags
    ['low'], ['medium'] and ['high']. *)
Record meter_classes := mkMeterClasses {
  meter_low : bool;
  meter_medium : bool;
  meter_high : bool
}.

Definition meter_class (pct : jsnum) : meter_classes :=
  mkMeterClasses (js_gt (JFin 33) pct)
    (js_ge pct (JFin 33) && js_gt (JFin 66) pct)
    (js_ge pct (JFin 66)).

(** [onUnmounted(() => { stop() })], lines 176-178. *)
Definition onUnmounted_hook : M unit := stop.

(** What [analyser.getValue()] can return: null, or an array without NaN. *)
Definition platform_poll (p : poll_outcome) : Prop :=
  match p with
  | GetValueReturns (Some values) => Forall not_nan values
  | _ => True
  end.

(** Every event the component reacts to, in any order: a click on Start
    (with whatever the platform does up to the [await]), the settling of a
    pending [mic.open()] (resolved or rejected; with whatever the first
    [getValue] returns), an animation frame, a click on Stop, the unmount. *)
Inductive step : state -> state -> Prop :=
| step_click_start (o : acquire_outcome) (s : state) :
    step s (run (start_until_await o) s)
| step_open_settles (o : acquire_outcome) (m : nat) (p : poll_outcome) (s : state) :
    In m (pendingOpens s) -> platform_poll p ->
    step s (run (start_after_open o m p) s)
| step_frame (p : poll_outcome) (s : state) :
    platform_poll p -> step s (run (fire_frame p) s)
| step_stop (s : state) : step s (run stop s)
| step_unmount (s : state) : step s (run onUnmounted_hook s).

Inductive reachable : state -> Prop :=
| reachable_init : reachable initial_state
| reachable_step (s s' : state) : reachable s -> step s s' -> reachable s'.

(** The acquisition outcomes after which [start()] leaves nothing behind:
    success, and a failure before any platform object exists. *)
Definition clean_outcome (o : acquire_outcome) : Prop :=
  o = OpenResolves \/ o = AnalyserCtorThrows.

(** The states of a serial schedule: every click on Start has its request
    for the microphone answered before the next event (no click, frame,
    Stop or unmount while [mic.open()] is pending), and fails, if it does,
    before any platform object exists. *)
Inductive clean_reachable : state -> Prop :=
| clean_init : clean_reachable initial_state
| clean_start (o : acquire_outcome) (p : poll_outcome) (s : state) :
    clean_reachable s -> clean_outcome o -> clean_reachable (run (start o p) s)
| clean_frame (p : poll_outcome) (s : state) :
    clean_reachable s -> clean_reachable (run (fire_frame p) s)
| clean_stop (s : state) : clean_reachable s -> clean_reachable (run stop s)
| clean_unmount (s : state) :
    clean_reachable s -> clean_reachable (run onUnmounted_hook s).

(** The displayed values: 32 bars, a frequency in [0, 22050], a volume at
    its initial -100 or non-negative. *)
Definition display_ok (s : state) : Prop :=
  length (frequencyBars s) = 32%nat /\
  0 <= frequency s <= 22050 /\
  (volume s = JFin (-100)%Q \/ js_nonneg (volume s)).

(** The resources of a session: while recording, exactly the two objects
    of the handles are alive, the microphone is open and one animation
    frame is pending, the one recorded in [animationFrameId]; otherwise
    nothing is alive, open or pending; and no [mic.open()] is pending. *)
Definition session_ok (s : state) : Prop :=
  pendingOpens s = [] /\
  if isRecording s then
    exists m a id, mic s = Some m /\ analyser s = Some a /\
      live s = [RMic m; RAnalyser a] /\ openMics s = [m] /\
      scheduled s = [id] /\ animationFrameId s = Some id
  else live s = [] /\ openMics s = [] /\ scheduled s = [].

(** The sum of the magnitudes of the [i]-th group of [floor(length / 32)]
    consecutive samples, the group a bar is meant to average. *)
Definition group_sum (values : list jsnum) (i : nat) : jsnum :=
  fold_left (fun acc v => js_add acc (js_abs v))
    (firstn (samplesPerBar values) (skipn (i * samplesPerBar values) values)) (JFin 0).

(** Whether a platform object is the one a module-level handle points to. *)
Definition held_by_handles (s : state) (r : resource) : bool :=
  match r, mic s, analyser s with
  | RMic x, Some m, _ => Nat.eqb x m
  | RAnalyser x, _, Some a => Nat.eqb x a
  | _, _, _ => false
  end.

(** ** Loops *)

Lemma for_upto_S {A : Type} (n : nat) (body : nat -> A -> A) (init : A) :
  for_upto (S n) body init = body n (for_upto n body init).
Proof.
  unfold for_upto. rewrite seq_S, fold_left_app. reflexivity.
Qed.

Lemma for_upto_ind {A : Type} (P : nat -> A -> Prop) (n : nat)
      (body : nat -> A -> A) (init : A) :
  P O init ->
  (forall i a, (i < n)%nat -> P i a -> P (S i) (body i a)) ->
  P n (for_upto n body init).
Proof.
  intros H0 Hstep. induction n as [|n IH].
  - exact H0.
  - rewrite for_upto_S. apply Hstep; [lia|].
    apply IH. intros i a Hi. apply Hstep. lia.
Qed.

Lemma for_upto_ext {A : Type} (n : nat) (b1 b2 : nat -> A -> A) (init : A) :
  (forall i a, (i < n)%nat -> b1 i a = b2 i a) ->
  for_upto n b1 init = for_upto n b2 init.
Proof.
  induction n as [|n IH]; intros H; [reflexivity|].
  rewrite !for_upto_S, IH by (intros; apply H; lia). apply H. lia.
Qed.

(** An index loop reading [values[i]] is a left fold over the frame. *)
Lemma for_upto_at {A : Type} (g : A -> jsnum -> A) (l : list jsnum) (init : A) :
  for_upto (length l) (fun i acc => g acc (at_ l i)) init = fold_left g l init.
Proof.
  induction l as [|x l IH] using rev_ind; [reflexivity|].
  rewrite length_app, Nat.add_1_r, for_upto_S, fold_left_app. simpl.
  rewrite (for_upto_ext _ _ (fun i acc => g acc (at_ l i))).
  - rewrite IH. unfold at_. rewrite app_nth2, Nat.sub_diag by lia. reflexivity.
  - intros i a Hi. unfold at_. rewrite app_nth1 by lia. reflexivity.
Qed.

(** ** JavaScript arithmetic on non-negative values *)

Lemma Qplus_nonneg (a b : Q) : (0 <= a)%Q -> (0 <= b)%Q -> (0 <= a + b)%Q.
Proof.
  intros Ha Hb. rewrite <- (Qplus_0_l 0). apply Qplus_le_compat; assumption.
Qed.

Lemma at_not_nan (values : list jsnum) (i : nat) :
  Forall not_nan values -> not_nan (at_ values i).
Proof.
  intros H. unfold at_.
  destruct (nth_in_or_default i values (JFin 0)) as [Hin | ->].
  - rewrite Forall_forall in H. apply H, Hin.
  - discriminate.
Qed.

Lemma js_abs_nonneg (x : jsnum) : not_nan x -> js_nonneg (js_abs x).
Proof.
  intros H. destruct x as [q| | |]; simpl.
  - left. exists (Qabs q). split; [reflexivity | apply Qabs_nonneg].
  - congruence.
  - right; reflexivity.
  - right; reflexivity.
Qed.

Lemma js_add_nonneg (x y : jsnum) :
  js_nonneg x -> js_nonneg y -> js_nonneg (js_add x y).
Proof.
  intros [(a & -> & Ha) | ->] [(b & -> & Hb) | ->]; simpl;
    try (right; reflexivity).
  left. exists (a + b)%Q. split; [reflexivity | apply Qplus_nonneg; assumption].
Qed.

Lemma js_div_nonneg (x : jsnum) (b : Z) :
  0 < b -> js_nonneg x -> js_nonneg (js_div x b).
Proof.
  intros Hb [(a & -> & Ha) | ->]; simpl.
  - replace (Z.eqb b 0) with false by (symmetry; apply Z.eqb_neq; lia).
    left. eexists. split; [reflexivity|].
    apply Qmult_le_0_compat; [exact Ha|].
    apply Qinv_le_0_compat. unfold Qle; simpl. lia.
  - replace (Z.ltb b 0) with false by (symmetry; apply Z.ltb_ge; lia).
    right; reflexivity.
Qed.

Lemma js_mul_pos_nonneg (x : jsnum) (c : Q) :
  (0 <= c)%Q -> js_nonneg x -> js_nonneg (js_mul_pos x c).
Proof.
  intros Hc [(a & -> & Ha) | ->]; simpl; [|right; reflexivity].
  left. eexists. split; [reflexivity | apply Qmult_le_0_compat; assumption].
Qed.

Lemma js_round_nonneg (x : Q) : (0 <= x)%Q -> 0 <= js_round x.
Proof.
  intros Hx. unfold js_round.
  change 0 with (Qfloor 0). apply Qfloor_resp_le.
  apply Qplus_nonneg; [exact Hx | discriminate].
Qed.

Lemma js_round_num_nonneg (x : jsnum) : js_nonneg x -> js_nonneg (js_round_num x).
Proof.
  intros [(a & -> & Ha) | ->]; simpl; [|right; reflexivity].
  left. eexists. split; [reflexivity|].
  change 0%Q with (inject_Z 0). rewrite <- Zle_Qle. apply js_round_nonneg, Ha.
Qed.

Lemma js_min_percent (x : jsnum) : js_nonneg x -> in_percent_range (js_min 100 x).
Proof.
  intros [(q & -> & Hq) | ->]; simpl.
  - destruct (Qle_bool 100 q) eqn:Hc; eexists; split; try reflexivity.
    + split; [discriminate | apply Qle_refl].
    + split; [exact Hq|].
      apply Qlt_le_weak, Qnot_le_lt. intros H. apply Qle_bool_iff in H. congruence.
  - eexists. split; [reflexivity|]. split; [discriminate | apply Qle_refl].
Qed.

(** A loop that only adds magnitudes of non-NaN values to an accumulator
    starting at 0. *)
Lemma for_upto_abs_nonneg (n : nat) (body : nat -> jsnum -> jsnum) :
  (forall i acc, js_nonneg acc -> js_nonneg (body i acc)) ->
  js_nonneg (for_upto n body (JFin 0)).
Proof.
  intros Hb.
  apply (for_upto_ind (fun _ acc => js_nonneg acc)).
  - left. exists 0%Q. split; [reflexivity | apply Qle_refl].
  - intros i a _ Ha. apply Hb, Ha.
Qed.

Lemma volume_sum_nonneg (values : list jsnum) :
  Forall not_nan values -> js_nonneg (volume_sum values).
Proof.
  intros Hv. apply for_upto_abs_nonneg. intros i acc H.
  apply js_add_nonneg; [exact H | apply js_abs_nonneg, at_not_nan, Hv].
Qed.

Lemma bar_sum_nonneg (values : list jsnum) (i : nat) :
  Forall not_nan values -> js_nonneg (bar_sum values i).
Proof.
  intros Hv. apply for_upto_abs_nonneg. intros j acc H. cbv zeta.
  destruct (Nat.ltb _ _); [|exact H].
  apply js_add_nonneg; [exact H | apply js_abs_nonneg, at_not_nan, Hv].
Qed.

(** ** The order of the peak search *)

Lemma js_le_not_nan_l (x y : jsnum) : js_le x y -> not_nan x.
Proof. destruct x, y; simpl; try tauto; discriminate. Qed.

Lemma js_le_not_nan_r (x y : jsnum) : js_le x y -> not_nan y.
Proof. destruct x, y; simpl; try tauto; discriminate. Qed.

Lemma js_le_refl (x : jsnum) : not_nan x -> js_le x x.
Proof. destruct x; simpl; try tauto; [intros _; apply Qle_refl | congruence]. Qed.

Lemma js_le_trans (x y z : jsnum) : js_le x y -> js_le y z -> js_le x z.
Proof.
  destruct x, y, z; simpl; try tauto.
  intros H1 H2. eapply Qle_trans; eassumption.
Qed.

Lemma js_le_lt_trans (x y z : jsnum) : js_le x y -> js_lt y z -> js_lt x z.
Proof.
  intros Hxy [Hyz Hzy]. split; [eapply js_le_trans; eassumption|].
  intros Hzx. apply Hzy. eapply js_le_trans; eassumption.
Qed.

(** [x > y] on non-NaN values is the strict order. *)
Lemma js_gt_true (x y : jsnum) :
  not_nan x -> not_nan y -> js_gt x y = true -> js_lt y x.
Proof.
  unfold not_nan, js_lt.
  destruct x as [a| | |], y as [b| | |]; simpl; intros Hx Hy H;
    try congruence; try tauto.
  apply negb_true_iff in H. split.
  - apply Qlt_le_weak, Qnot_le_lt. intros Hab. apply Qle_bool_iff in Hab. congruence.
  - intros Hab. apply Qle_bool_iff in Hab. congruence.
Qed.

Lemma js_gt_false (x y : jsnum) :
  not_nan x -> not_nan y -> js_gt x y = false -> js_le x y.
Proof.
  unfold not_nan.
  destruct x as [a| | |], y as [b| | |]; simpl; intros Hx Hy H;
    try congruence; try tauto.
  apply negb_false_iff, Qle_bool_iff in H. exact H.
Qed.

Lemma js_abs_not_nan (x : jsnum) : not_nan x -> not_nan (js_abs x).
Proof. unfold not_nan. destruct x; simpl; congruence. Qed.

Lemma js_abs_ge0 (x : jsnum) : not_nan x -> js_le (JFin 0) (js_abs x).
Proof.
  unfold not_nan. destruct x; simpl; intros H; try exact I; try congruence.
  apply Qabs_nonneg.
Qed.

(** ** The bars array *)

Lemma js_set_app {A : Type} (l1 r : list A) (x v : A) :
  js_set (l1 ++ x :: r) (length l1) v = l1 ++ v :: r.
Proof.
  induction l1 as [|y l1 IH]; simpl.
  - reflexivity.
  - rewrite IH. reflexivity.
Qed.

(** Writing [arr[0] .. arr[k-1]] in order over an array at least [k] long. *)
Lemma for_upto_js_set {A : Type} (f : nat -> A) (k : nat) (l : list A) :
  (k <= length l)%nat ->
  for_upto k (fun i acc => js_set acc i (f i)) l = map f (seq 0 k) ++ skipn k l.
Proof.
  induction k as [|k IH]; intros Hk.
  - reflexivity.
  - rewrite for_upto_S, IH by lia.
    destruct (skipn k l) as [|x r] eqn:Hs.
    { apply (f_equal (@length A)) in Hs. rewrite length_skipn in Hs. simpl in Hs. lia. }
    assert (Hr : skipn (S k) l = r).
    { change (S k) with (1 + k)%nat. rewrite <- skipn_skipn, Hs. reflexivity. }
    rewrite Hr.
    rewrite <- (length_seq k 0) at 2. rewrite <- (length_map f (seq 0 k)).
    rewrite js_set_app.
    rewrite seq_S, map_app, <- app_assoc. reflexivity.
Qed.

Lemma updateFrequencyBars_map (values : list jsnum) (bars : list jsnum) :
  length bars = 32%nat ->
  updateFrequencyBars values bars = map (bar_value values) (seq 0 32).
Proof.
  intros Hl. unfold updateFrequencyBars.
  rewrite for_upto_js_set by lia.
  rewrite skipn_all2 by lia. apply app_nil_r.
Qed.

Lemma samplesPerBar_pos (values : list jsnum) :
  (32 <= length values)%nat -> (1 <= samplesPerBar values)%nat.
Proof. intros H. unfold samplesPerBar. apply Nat.div_le_lower_bound; lia. Qed.

Lemma samplesPerBar_fits (values : list jsnum) :
  (32 * samplesPerBar values <= length values)%nat.
Proof. unfold samplesPerBar. apply Nat.Div0.mul_div_le. Qed.

Lemma bar_value_in_range (values : list jsnum) (i : nat) :
  (32 <= length values)%nat -> Forall not_nan values ->
  in_percent_range (bar_value values i).
Proof.
  intros Hl Hv. unfold bar_value. apply js_min_percent.
  apply js_mul_pos_nonneg; [discriminate|].
  apply js_div_nonneg; [pose proof (samplesPerBar_pos values Hl); lia|].
  apply bar_sum_nonneg, Hv.
Qed.

(** For every frame of at least 32 samples without NaN, updating a
    32-element bars array yields 32 bars, each a finite value in [0, 100]. *)
Lemma updateFrequencyBars_bounded (values : list jsnum) (bars : list jsnum) :
  (32 <= length values)%nat -> Forall not_nan values ->
  length bars = 32%nat ->
  length (updateFrequencyBars values bars) = 32%nat /\
  Forall in_percent_range (updateFrequencyBars values bars).
Proof.
  intros Hl Hv Hb. rewrite updateFrequencyBars_map by exact Hb.
  split; [rewrite length_map, length_seq; reflexivity|].
  apply Forall_forall. intros x Hx.
  apply in_map_iff in Hx. destruct Hx as (i & <- & _).
  apply bar_value_in_range; assumption.
Qed.


(** ** Rounding *)

Lemma js_round_le (x : Q) (c : Z) : (x <= inject_Z c)%Q -> js_round x <= c.
Proof.
  intros Hx. unfold js_round.
  transitivity (Qfloor (inject_Z c + (1 # 2))).
  - apply Qfloor_resp_le. apply Qplus_le_compat; [exact Hx | apply Qle_refl].
  - apply Z.lt_succ_r. rewrite Zlt_Qlt.
    eapply Qle_lt_trans; [apply Qfloor_le|].
    unfold Qlt, Qplus, inject_Z; simpl. lia.
Qed.

(** ** The peak search *)

Lemma peak_search_index (values : list jsnum) :
  fst (peak_search values) = O \/ (fst (peak_search values) < length values)%nat.
Proof.
  unfold peak_search.
  apply (for_upto_ind (fun k (st : nat * jsnum) => fst st = O \/ (fst st < k)%nat)).
  - left; reflexivity.
  - intros k [mi mv] Hk Hst. simpl in Hst.
    destruct (js_gt _ _); simpl; [right; lia|].
    destruct Hst as [-> | Hlt]; [left; reflexivity | right; lia].
Qed.

Lemma peak_search_inv (values : list jsnum) :
  Forall not_nan values ->
  peak_inv values (length values) (peak_search values).
Proof.
  intros Hv. unfold peak_search. apply for_upto_ind.
  - simpl. split; [intros j Hj; lia|]. split; [apply Qle_refl|]. left; auto.
  - intros k [mi mv] _ [Hle [Hnn Hcase]].
    pose proof (js_abs_not_nan _ (at_not_nan values k Hv)) as Hk.
    pose proof (js_le_not_nan_r _ _ Hnn) as Hmv.
    destruct (js_gt (js_abs (at_ values k)) mv) eqn:Hc.
    + apply js_gt_true in Hc; [|exact Hk | exact Hmv].
      split; [|split].
      * intros j Hj. destruct (Nat.eq_dec j k) as [->|Hne]; [apply js_le_refl, Hk|].
        apply js_le_trans with mv; [apply Hle; lia | apply Hc].
      * apply js_abs_ge0, at_not_nan, Hv.
      * right. split; [lia|]. split; [reflexivity|].
        intros j Hj. apply js_le_lt_trans with mv; [apply Hle; exact Hj | exact Hc].
    + apply js_gt_false in Hc; [|exact Hk | exact Hmv].
      split; [|split; [exact Hnn|]].
      * intros j Hj. destruct (Nat.eq_dec j k) as [->|Hne]; [exact Hc|].
        apply Hle. lia.
      * destruct Hcase as [Hz | [Hlt Hrest]]; [left; exact Hz | right; split; [lia | exact Hrest]].
Qed.

Lemma peak_search_first_argmax (values : list jsnum) :
  values <> [] -> Forall not_nan values ->
  first_argmax values (fst (peak_search values)).
Proof.
  intros Hne Hv.
  assert (Hlen : (0 < length values)%nat)
    by (destruct values; [congruence | simpl; lia]).
  pose proof (peak_search_inv values Hv) as Hinv.
  destruct (peak_search values) as [mi mv]. simpl.
  destruct Hinv as [Hle [Hnn [[-> ->] | [Hlt [-> Hbelow]]]]].
  - split; [exact Hlen|]. split; [|intros j Hj; lia].
    intros j Hj. apply js_le_trans with (JFin 0); [apply Hle, Hj|].
    apply js_abs_ge0, at_not_nan, Hv.
  - split; [exact Hlt|]. split; [exact Hle | exact Hbelow].
Qed.

Lemma computed_frequency_bounds (values : list jsnum) :
  values <> [] -> 0 <= computed_frequency values <= 22050.
Proof.
  intros Hne.
  assert (Hlen : (0 < length values)%nat)
    by (destruct values; [congruence | simpl; lia]).
  assert (Hlt : (fst (peak_search values) < length values)%nat)
    by (destruct (peak_search_index values) as [-> | H]; [exact Hlen | exact H]).
  unfold computed_frequency.
  set (mi := fst (peak_search values)) in *.
  set (n := length values) in *.
  clearbody mi n.
  split.
  - apply js_round_nonneg.
    apply Qmult_le_0_compat.
    + apply Qmult_le_0_compat; [|discriminate].
      unfold Qle; simpl. lia.
    + apply Qinv_le_0_compat. unfold Qle; simpl. lia.
  - apply js_round_le. apply Qle_shift_div_r.
    + unfold Qlt; simpl. lia.
    + unfold Qle; cbn [Qnum Qden Qmult inject_Z]. rewrite ?Pos.mul_1_l, ?Pos.mul_1_r. nia.
Qed.

(** ** The volume *)

Lemma fold_abs_fin (qs : list Q) (a : Q) :
  fold_left (fun acc v => js_add acc (js_abs v)) (map JFin qs) (JFin a)
  = JFin (fold_left (fun acc v => (acc + Qabs v)%Q) qs a).
Proof.
  revert a. induction qs as [|q qs IH]; intros a; [reflexivity|].
  simpl. apply IH.
Qed.

(** For a frame of finite samples, the published volume is the rounded
    mean magnitude times 1000. *)
Lemma computed_volume_fin (qs : list Q) :
  qs <> [] ->
  computed_volume (map JFin qs) = JFin (inject_Z (js_round (mean_abs qs * 1000))).
Proof.
  intros Hne.
  assert (Hlen : Z.eqb (Z.of_nat (length qs)) 0 = false)
    by (destruct qs; [congruence | reflexivity]).
  unfold computed_volume, volume_sum.
  rewrite (for_upto_at (fun acc v => js_add acc (js_abs v))), fold_abs_fin, length_map.
  unfold js_div. rewrite Hlen. reflexivity.
Qed.

Lemma fold_abs_pinf (l : list jsnum) :
  Forall not_nan l -> fold_left (fun acc v => js_add acc (js_abs v)) l JPInf = JPInf.
Proof.
  induction l as [|x l IH]; intros Hl; [reflexivity|].
  inversion Hl as [|? ? Hx Hr]; subst. cbn [fold_left].
  replace (js_add JPInf (js_abs x)) with JPInf by (destruct x; simpl; congruence).
  apply IH, Hr.
Qed.

Lemma fold_abs_nonneg (l : list jsnum) (acc : jsnum) :
  Forall not_nan l -> js_nonneg acc ->
  js_nonneg (fold_left (fun acc v => js_add acc (js_abs v)) l acc).
Proof.
  revert acc. induction l as [|x l IH]; intros acc Hl Hacc; [exact Hacc|].
  inversion Hl as [|? ? Hx Hr]; subst. simpl.
  apply IH; [exact Hr|]. apply js_add_nonneg; [exact Hacc | apply js_abs_nonneg, Hx].
Qed.

(** A frame with a -Infinity value and no NaN: the sum of magnitudes is
    +Infinity, and so is the published volume. *)
Lemma computed_volume_neginf (values : list jsnum) :
  Forall not_nan values -> In JNInf values -> computed_volume values = JPInf.
Proof.
  intros Hv Hin.
  assert (Hsum : volume_sum values = JPInf).
  { unfold volume_sum.
    rewrite (for_upto_at (fun acc v => js_add acc (js_abs v))).
    apply in_split in Hin. destruct Hin as (l1 & l2 & ->).
    apply Forall_app in Hv. destruct Hv as [H1 H2].
    inversion H2 as [|? ? _ H2']; subst.
    rewrite fold_left_app. simpl.
    destruct (fold_abs_nonneg l1 (JFin 0) H1) as [(q & Hq & _) | Hq].
    - left. exists 0%Q. split; [reflexivity | apply Qle_refl].
    - rewrite Hq. apply fold_abs_pinf, H2'.
    - rewrite Hq. apply fold_abs_pinf, H2'. }
  unfold computed_volume, js_div. rewrite Hsum.
  replace (Z.ltb (Z.of_nat (length values)) 0) with false
    by (symmetry; apply Z.ltb_ge; lia).
  reflexivity.
Qed.

Lemma computed_volume_nonneg (values : list jsnum) :
  values <> [] -> Forall not_nan values -> js_nonneg (computed_volume values).
Proof.
  intros Hne Hv. unfold computed_volume.
  apply js_round_num_nonneg, js_mul_pos_nonneg; [discriminate|].
  apply js_div_nonneg; [destruct values; [congruence | simpl; lia]|].
  apply volume_sum_nonneg, Hv.
Qed.

(** ** [stop] *)

Lemma stop_spec (s : state) :
  fst (stop s) = inl tt /\
  frequency (run stop s) = frequency s /\
  volume (run stop s) = volume s /\
  error (run stop s) = error s /\
  isRecording (run stop s) = false /\
  frequencyBars (run stop s) = zero_bars /\
  mic (run stop s) = None /\
  analyser (run stop s) = None /\
  animationFrameId (run stop s) = None /\
  pendingOpens (run stop s) = pendingOpens s.
Proof.
  destruct s as [f v r e b m a af l om ni sc nf po].
  unfold run, stop. destruct af, m, a; repeat split.
Qed.

(** ** One analysis cycle *)

Lemma analyzeWithTone_volume_cases (s : state) (p : poll_outcome) :
  volume (run (analyzeWithTone p) s) = volume s \/
  (exists values, p = GetValueReturns (Some values) /\ values <> [] /\
     volume (run (analyzeWithTone p) s) = computed_volume values).
Proof.
  destruct s as [f v r e b m a af l om ni sc nf po].
  unfold run, analyzeWithTone, bind, get, try_catch. cbn [analyser isRecording].
  destruct (is_null a || negb r); [left; reflexivity|].
  destruct p as [|[values|]].
  - left. apply (proj1 (proj2 (proj2 (stop_spec _)))).
  - destruct values as [|x xs].
    + left. reflexivity.
    + right. exists (x :: xs). split; [reflexivity|]. split; [discriminate|].
      reflexivity.
  - left. reflexivity.
Qed.

(** The volume a running cycle publishes on a non-empty frame. *)
Lemma analyzeWithTone_running_volume (s : state) (values : list jsnum) :
  isRecording s = true -> analyser s <> None -> values <> [] ->
  volume (run (analyzeWithTone (GetValueReturns (Some values))) s) = computed_volume values.
Proof.
  intros Hrec Ha Hne.
  destruct s as [f vol r e b m a af l om ni sc nf po].
  simpl in Hrec, Ha. subst r. destruct a as [a|]; [|congruence].
  destruct values as [|x xs]; [congruence|]. reflexivity.
Qed.

(** ** Helper facts about concrete frames *)

Lemma fold_abs_q_nonneg (qs : list Q) (a : Q) :
  (0 <= a)%Q -> (0 <= fold_left (fun acc v => (acc + Qabs v)%Q) qs a)%Q.
Proof.
  revert a. induction qs as [|q qs IH]; intros a Ha; [exact Ha|].
  simpl. apply IH, Qplus_nonneg; [exact Ha | apply Qabs_nonneg].
Qed.

Lemma mean_abs_nonneg (qs : list Q) : (0 <= mean_abs qs)%Q.
Proof.
  unfold mean_abs. apply Qmult_le_0_compat.
  - apply fold_abs_q_nonneg, Qle_refl.
  - apply Qinv_le_0_compat. unfold Qle; simpl. lia.
Qed.

Lemma repeat_not_nan (x : jsnum) (n : nat) : not_nan x -> Forall not_nan (repeat x n).
Proof.
  intros Hx. apply Forall_forall. intros y Hy. apply repeat_spec in Hy. subst y. exact Hx.
Qed.

Lemma scenarioB_not_nan : Forall not_nan scenarioB.
Proof.
  unfold scenarioB. apply Forall_app. split; [apply repeat_not_nan; discriminate|].
  apply Forall_app. split; [repeat constructor; discriminate | apply repeat_not_nan; discriminate].
Qed.

(** * The claims *)

(** ** C1: stop after start *)

(** C1 (counterexample): after a session whose first cycle published
    11025 Hz, [stop()] leaves the frequency at 11025, not at 0. *)
Lemma stop_keeps_published_frequency :
  frequency session_B = 11025 /\
  frequency (run stop session_B) = 11025 /\
  frequency (run stop session_B) <> 0.
Proof. vm_compute. split; [reflexivity | split; [reflexivity | discriminate]]. Qed.

(** C1 (amended): for every session, [stop()] after [start()] and any
    number of analysis cycles raises nothing, clears [isRecording] and
    resets all 32 bars to 0, while the frequency and the volume keep the
    values last published during the session. *)
Theorem stop_after_start_resets_bars
    (s : state) (o : acquire_outcome) (p : poll_outcome) (ps : list poll_outcome) :
  let s1 := run (fire_frames ps) (run (start o p) s) in
  fst (stop s1) = inl tt /\
  isRecording (run stop s1) = false /\
  frequencyBars (run stop s1) = zero_bars /\
  frequency (run stop s1) = frequency s1 /\
  volume (run stop s1) = volume s1.
Proof.
  intros s1.
  destruct (stop_spec s1) as (Hr & Hf & Hv & _ & Hrec & Hb & _).
  repeat split; assumption.
Qed.

(** ** C2: an exception in a running cycle *)

(** C2 (code bug): in a running session whose error field is empty, a cycle
    whose [analyser.getValue()] throws stops the session (nothing recording,
    no object alive, no frame pending) but leaves the error field empty. *)
Theorem analysis_error_publishes_no_message :
  isRecording session_B = true /\
  error session_B = EmptyString /\
  isRecording (run (fire_frame GetValueThrows) session_B) = false /\
  live (run (fire_frame GetValueThrows) session_B) = [] /\
  scheduled (run (fire_frame GetValueThrows) session_B) = [] /\
  error (run (fire_frame GetValueThrows) session_B) = EmptyString.
Proof. vm_compute. repeat split. Qed.

(** ** C3: a failing start *)

(** C3 (code bug): when [await mic.open()] rejects, [start()] sets the
    message and leaves [isRecording] false, but the analyser and the
    microphone it created stay alive; a later successful session and its
    [stop()] never release them. *)
Theorem failed_start_leaks_resources :
  error session_denied = start_error_message /\
  isRecording session_denied = false /\
  live session_denied = [RMic 1; RAnalyser 0] /\
  live (run stop (run (start OpenResolves (GetValueReturns None)) session_denied))
    = [RMic 1; RAnalyser 0].
Proof. vm_compute. repeat split. Qed.

(** ** C4: the session invariant *)

(** C4 (code bug): the invariant holds at mount, and fails after a
    [start()] whose [new UserMedia()] throws: [isRecording] is false while
    the analyser created just before is still alive. *)
Theorem failed_start_breaks_session_invariant :
  session_invariant initial_state /\
  isRecording session_no_device = false /\
  live session_no_device = [RAnalyser 0] /\
  ~ session_invariant session_no_device.
Proof.
  vm_compute. split; [reflexivity|]. split; [reflexivity|].
  split; [reflexivity | discriminate].
Qed.

(** ** C5: the bars *)



(** ** C6: the peak frequency is in range *)

(** C6: for every non-empty frame, whatever its values (NaN and the
    infinities included), the computed peak frequency lies in
    [0, 44100 / 2]. *)
Theorem computed_frequency_in_range (values : list jsnum) :
  values <> [] -> 0 <= computed_frequency values <= 22050.
Proof. apply computed_frequency_bounds. Qed.

Lemma computed_frequency_in_range_witness :
  0 <= computed_frequency scenarioB <= 22050.
Proof. apply computed_frequency_in_range. unfold scenarioB. discriminate. Defined.

(** ** C7: the peak frequency formula *)

(** C7: for every non-empty frame without NaN (finite or infinite values),
    the computed frequency is [round(i * (44100 / 2) / length)] for [i]
    the lowest index of largest absolute magnitude; on [scenarioB] it is
    11025 Hz. *)
Theorem computed_frequency_first_peak (values : list jsnum) :
  values <> [] -> Forall not_nan values ->
  (exists i, first_argmax values i /\
     computed_frequency values
     = js_round (inject_Z (Z.of_nat i) * (44100 # 2)
                 / inject_Z (Z.of_nat (length values)))%Q) /\
  computed_frequency scenarioB = 11025.
Proof.
  intros Hne Hv. split.
  - exists (fst (peak_search values)).
    split; [apply peak_search_first_argmax; assumption | reflexivity].
  - vm_compute. reflexivity.
Qed.

Lemma computed_frequency_first_peak_witness :
  first_argmax scenarioB 1024 /\ computed_frequency scenarioB = 11025.
Proof.
  destruct (computed_frequency_first_peak scenarioB) as [(i & Hi & _) H11025].
  - unfold scenarioB. discriminate.
  - exact scenarioB_not_nan.
  - split; [|exact H11025].
    assert (Hidx : fst (peak_search scenarioB) = 1024%nat) by (vm_compute; reflexivity).
    rewrite <- Hidx. apply peak_search_first_argmax; [unfold scenarioB; discriminate|].
    exact scenarioB_not_nan.
Defined.

(** ** C8: stop on a stopped component *)

(** C8 (counterexample): stopping the session of [session_B] twice leaves
    the frequency at the 11025 Hz published during the session. *)
Lemma second_stop_keeps_frequency :
  isRecording (run stop session_B) = false /\
  frequency (run stop (run stop session_B)) = 11025.
Proof. vm_compute. split; reflexivity. Qed.

(** C8 (amended): on every stopped state, [stop()] raises nothing, leaves
    [isRecording] false and the error field unchanged, sets every bar to 0,
    and leaves the frequency and the volume unchanged. *)
Theorem stop_when_stopped (s : state) :
  isRecording s = false ->
  fst (stop s) = inl tt /\
  isRecording (run stop s) = false /\
  error (run stop s) = error s /\
  frequencyBars (run stop s) = zero_bars /\
  frequency (run stop s) = frequency s /\
  volume (run stop s) = volume s.
Proof.
  intros _.
  destruct (stop_spec s) as (Hr & Hf & Hv & He & Hrec & Hb & _).
  repeat split; assumption.
Qed.

Lemma stop_when_stopped_witness :
  isRecording (run stop session_B) = false /\
  error (run stop (run stop session_B)) = error (run stop session_B).
Proof.
  destruct (stop_when_stopped (run stop session_B)) as (_ & H1 & H2 & _).
  - vm_compute. reflexivity.
  - split; [vm_compute; reflexivity | exact H2].
Defined.

(** ** C9: null and empty frames *)

(** C9: a cycle whose [analyser.getValue()] returns null or an empty array
    raises nothing and leaves the frequency, the volume, the bars, the error
    field and [isRecording] unchanged. *)
Theorem analyzeWithTone_empty_frame (s : state) :
  no_update s (analyzeWithTone (GetValueReturns None) s) /\
  no_update s (analyzeWithTone (GetValueReturns (Some [])) s).
Proof.
  destruct s as [f v r e b m a af l om ni sc nf po].
  unfold no_update, analyzeWithTone, bind, get, try_catch. cbn [analyser isRecording].
  destruct (is_null a || negb r); repeat split.
Qed.

(** ** C10: the published volume *)

(** C10 (code bug): in a running session, a cycle that reads a non-empty
    frame of finite samples publishes [round(mean |sample| * 1000)], a
    non-negative integer; but a cycle that reads a frame holding a
    -Infinity value (the value [getFloatFrequencyData] writes for a bin of
    zero magnitude, as in silence) and no NaN publishes +Infinity, which is
    not an integer. *)
Theorem analysis_cycle_volume (s : state) :
  isRecording s = true -> analyser s <> None ->
  (forall qs : list Q, qs <> [] ->
     volume (run (analyzeWithTone (GetValueReturns (Some (map JFin qs)))) s)
       = JFin (inject_Z (js_round (mean_abs qs * 1000))) /\
     0 <= js_round (mean_abs qs * 1000)) /\
  (forall values : list jsnum, Forall not_nan values -> In JNInf values ->
     volume (run (analyzeWithTone (GetValueReturns (Some values))) s) = JPInf).
Proof.
  intros Hrec Ha. split.
  - intros qs Hne.
    rewrite analyzeWithTone_running_volume
      by (first [assumption | destruct qs; [congruence | discriminate]]).
    split; [apply computed_volume_fin, Hne|].
    apply js_round_nonneg, Qmult_le_0_compat; [apply mean_abs_nonneg | discriminate].
  - intros values Hv Hin.
    rewrite analyzeWithTone_running_volume
      by (first [assumption | destruct values; [destruct Hin | discriminate]]).
    apply computed_volume_neginf; assumption.
Qed.

Lemma analysis_cycle_volume_witness :
  volume (run (analyzeWithTone (GetValueReturns (Some [JFin 1; JFin 0]))) session_B)
    = JFin (inject_Z (js_round (mean_abs [1; 0]%Q * 1000))) /\
  volume (run (analyzeWithTone (GetValueReturns (Some [JNInf; JFin 1]))) session_B) = JPInf.
Proof.
  destruct (analysis_cycle_volume session_B) as [Hfin Hinf].
  - vm_compute. reflexivity.
  - vm_compute. discriminate.
  - split.
    + apply (Hfin [1; 0]%Q). discriminate.
    + apply Hinf; [repeat constructor; discriminate | left; reflexivity].
Defined.

(** * Further properties of the component *)

(** ** Helper facts about frames *)

Lemma at_repeat (x : jsnum) (n i : nat) : (i < n)%nat -> at_ (repeat x n) i = x.
Proof.
  revert i. induction n as [|n IH]; intros i Hi; [lia|].
  destruct i as [|i]; [reflexivity|].
  unfold at_ in *. simpl. apply IH. lia.
Qed.

Lemma js_div_fin (q : Q) (b : Z) : b <> 0 -> js_div (JFin q) b = JFin (q / inject_Z b).
Proof.
  intros Hb. unfold js_div.
  replace (Z.eqb b 0) with false by (symmetry; apply Z.eqb_neq; exact Hb).
  reflexivity.
Qed.

Lemma js_div_pinf (b : Z) : 0 <= b -> js_div JPInf b = JPInf.
Proof.
  intros Hb. unfold js_div.
  replace (Z.ltb b 0) with false by (symmetry; apply Z.ltb_ge; exact Hb).
  reflexivity.
Qed.

Lemma bar_sum_group (values : list jsnum) (i : nat) :
  (32 <= length values)%nat -> (i < 32)%nat ->
  bar_sum values i = group_sum values i.
Proof.
  intros Hl Hi. unfold bar_sum, group_sum.
  pose proof (samplesPerBar_fits values) as Hfit.
  set (spb := samplesPerBar values) in *. clearbody spb.
  set (grp := firstn spb (skipn (i * spb) values)).
  assert (Hg : length grp = spb).
  { unfold grp. rewrite length_firstn, length_skipn. nia. }
  rewrite <- (for_upto_at (fun acc v => js_add acc (js_abs v)) grp). rewrite Hg.
  apply for_upto_ext. intros j acc Hj. cbv beta zeta.
  replace (Nat.ltb (i * spb + j) (length values)) with true
    by (symmetry; apply Nat.ltb_lt; nia).
  unfold grp, at_. rewrite nth_firstn.
  replace (j <? spb)%nat with true by (symmetry; apply Nat.ltb_lt; lia).
  rewrite nth_skipn. reflexivity.
Qed.

Lemma fold_abs_zeros (n : nat) :
  fold_left (fun acc v => (acc + Qabs v)%Q) (repeat 0%Q n) 0%Q = 0%Q.
Proof. induction n as [|n IH]; [reflexivity | exact IH]. Qed.

Lemma js_round_zero (x : Q) : (x == 0)%Q -> js_round x = 0.
Proof.
  intros Hx. unfold js_round. rewrite Hx. reflexivity.
Qed.

(** A frame whose samples all hold the same non-NaN value peaks at index 0. *)
Lemma computed_frequency_const (x : jsnum) (n : nat) :
  (0 < n)%nat -> not_nan x -> computed_frequency (repeat x n) = 0.
Proof.
  intros Hn Hx.
  assert (Hne : repeat x n <> []) by (destruct n; [lia | discriminate]).
  destruct (peak_search_first_argmax _ Hne (repeat_not_nan x n Hx)) as (Hlt & _ & Hbelow).
  assert (H0 : fst (peak_search (repeat x n)) = O).
  { destruct (fst (peak_search (repeat x n))) as [|k] eqn:Hk; [reflexivity|].
    rewrite repeat_length in Hlt.
    specialize (Hbelow O ltac:(lia)).
    rewrite !at_repeat in Hbelow by lia.
    destruct Hbelow as [H1 H2]. exfalso. exact (H2 H1). }
  unfold computed_frequency. rewrite H0.
  apply js_round_zero. unfold Qdiv. rewrite !Qmult_0_l. reflexivity.
Qed.

Lemma bar_sum_zeros (n i : nat) :
  exists q, bar_sum (repeat (JFin 0) n) i = JFin q /\ (q == 0)%Q.
Proof.
  unfold bar_sum.
  apply (for_upto_ind (fun _ acc => exists q, acc = JFin q /\ (q == 0)%Q));
    [exists 0%Q; split; reflexivity|].
  intros j acc _ (q & -> & Hq). cbv beta zeta.
  destruct (Nat.ltb _ _) eqn:Hlt; [|exists q; split; [reflexivity | exact Hq]].
  apply Nat.ltb_lt in Hlt. rewrite repeat_length in Hlt.
  rewrite at_repeat by exact Hlt.
  exists (q + Qabs 0)%Q. split; [reflexivity|]. rewrite Hq. reflexivity.
Qed.

Lemma bar_value_zeros (n i : nat) :
  (32 <= n)%nat -> exists q, bar_value (repeat (JFin 0) n) i = JFin q /\ (q == 0)%Q.
Proof.
  intros Hn.
  assert (Hspb : (1 <= samplesPerBar (repeat (JFin 0) n))%nat)
    by (apply samplesPerBar_pos; rewrite repeat_length; exact Hn).
  destruct (bar_sum_zeros n i) as (q & Hs & Hq).
  unfold bar_value. rewrite Hs, js_div_fin by lia.
  cbn [js_mul_pos js_min].
  set (r := (q / inject_Z (Z.of_nat (samplesPerBar (repeat (JFin 0) n))) * 500)%Q).
  assert (Hr : (r == 0)%Q) by (unfold r, Qdiv; rewrite Hq, !Qmult_0_l; reflexivity).
  destruct (Qle_bool 100 r) eqn:Hc.
  - apply Qle_bool_iff in Hc. rewrite Hr in Hc. unfold Qle in Hc; simpl in Hc; lia.
  - exists r. split; [reflexivity | exact Hr].
Qed.

Lemma bar_sum_neginf (n i : nat) :
  (32 <= n)%nat -> (i < 32)%nat -> bar_sum (repeat JNInf n) i = JPInf.
Proof.
  intros Hn Hi.
  pose proof (samplesPerBar_pos (repeat JNInf n)) as Hpos.
  pose proof (samplesPerBar_fits (repeat JNInf n)) as Hfit.
  rewrite repeat_length in Hpos, Hfit. specialize (Hpos Hn).
  unfold bar_sum.
  set (spb := samplesPerBar (repeat JNInf n)) in *. clearbody spb.
  match goal with |- for_upto ?k ?body ?init = _ =>
    assert (Hp : (k = O /\ for_upto k body init = JFin 0) \/ for_upto k body init = JPInf) end.
  { apply (for_upto_ind (fun j acc => (j = O /\ acc = JFin 0) \/ acc = JPInf));
      [left; split; reflexivity|].
    intros j acc Hj Hacc. cbv beta zeta.
    replace (Nat.ltb (i * spb + j) (length (repeat JNInf n))) with true
      by (symmetry; apply Nat.ltb_lt; rewrite repeat_length; nia).
    rewrite at_repeat by nia.
    right. destruct Hacc as [[_ ->] | ->]; reflexivity. }
  destruct Hp as [[Hk _] | H]; [lia | exact H].
Qed.

Lemma bar_value_neginf (n i : nat) :
  (32 <= n)%nat -> (i < 32)%nat -> bar_value (repeat JNInf n) i = JFin 100.
Proof.
  intros Hn Hi. unfold bar_value. rewrite bar_sum_neginf by assumption.
  rewrite js_div_pinf by lia. reflexivity.
Qed.

Lemma volumePercentage_nonneg (v : jsnum) : js_nonneg v -> volumePercentage v = JFin 100.
Proof.
  intros [(q & -> & Hq) | ->]; [|reflexivity].
  unfold volumePercentage. cbn [js_add js_min].
  assert (H : (100 <= q + 100)%Q)
    by exact (Qplus_le_compat 0 q 100 100 Hq (Qle_refl 100)).
  apply Qle_bool_iff in H. rewrite H. reflexivity.
Qed.

(** ** The volume meter *)

(** X1: a running cycle that reads a non-empty frame without NaN publishes
    [computed_volume], which is never negative, so the meter width
    [volumePercentage] becomes 100 and the meter takes only the class
    ['high']. *)
Theorem cycle_fills_volume_meter (s : state) (values : list jsnum) :
  isRecording s = true -> analyser s <> None -> values <> [] -> Forall not_nan values ->
  let v := volume (run (analyzeWithTone (GetValueReturns (Some values))) s) in
  v = computed_volume values /\
  volumePercentage v = JFin 100 /\
  meter_class (volumePercentage v) = mkMeterClasses false false true.
Proof.
  intros Hrec Ha Hne Hv v.
  assert (Hvol : v = computed_volume values)
    by (unfold v; apply analyzeWithTone_running_volume; assumption).
  assert (Hp : volumePercentage v = JFin 100)
    by (rewrite Hvol; apply volumePercentage_nonneg, computed_volume_nonneg; assumption).
  split; [exact Hvol|]. split; [exact Hp|]. rewrite Hp. reflexivity.
Qed.

Lemma cycle_fills_volume_meter_witness :
  volume (run (analyzeWithTone (GetValueReturns (Some [JFin 1]))) session_B) = JFin 1000 /\
  volumePercentage (JFin 1000) = JFin 100.
Proof.
  destruct (cycle_fills_volume_meter session_B [JFin 1]) as (Hv & Hp & _).
  - vm_compute. reflexivity.
  - vm_compute. discriminate.
  - discriminate.
  - repeat constructor; discriminate.
  - rewrite Hv. split; [vm_compute; reflexivity | reflexivity].
Defined.

(** ** Frames of zeros *)

(** X2: a frame of [n > 0] zero samples gives volume 0 (not the initial
    -100) and frequency 0; when [n >= 32], updating any 32-element bars
    array, whatever it held, makes every bar a finite 0. *)
Theorem zero_frame_metrics (n : nat) (bars : list jsnum) :
  (0 < n)%nat ->
  computed_volume (repeat (JFin 0) n) = JFin 0 /\
  computed_frequency (repeat (JFin 0) n) = 0 /\
  ((32 <= n)%nat -> length bars = 32%nat ->
   Forall (fun b => exists q, b = JFin q /\ (q == 0)%Q)
          (updateFrequencyBars (repeat (JFin 0) n) bars)).
Proof.
  intros Hn. split; [|split].
  - assert (Hz : js_round (mean_abs (repeat 0%Q n) * 1000) = 0).
    { apply js_round_zero. unfold mean_abs, Qdiv.
      rewrite fold_abs_zeros, !Qmult_0_l. reflexivity. }
    replace (repeat (JFin 0) n) with (map JFin (repeat 0%Q n)) by apply map_repeat.
    rewrite computed_volume_fin by (destruct n; [lia | discriminate]).
    rewrite Hz. reflexivity.
  - apply computed_frequency_const; [exact Hn | discriminate].
  - intros H32 Hb. rewrite updateFrequencyBars_map by exact Hb.
    apply Forall_forall. intros b Hin. apply in_map_iff in Hin.
    destruct Hin as (i & <- & _).
    apply bar_value_zeros, H32.
Qed.

Lemma zero_frame_metrics_witness :
  computed_volume (repeat (JFin 0) 2048) = JFin 0 /\
  computed_frequency (repeat (JFin 0) 2048) = 0 /\
  Forall (fun b => exists q, b = JFin q /\ (q == 0)%Q)
    (updateFrequencyBars (repeat (JFin 0) 2048) (repeat (JFin 100) 32)).
Proof.
  destruct (zero_frame_metrics 2048 (repeat (JFin 100) 32)) as (H1 & H2 & H3); [lia|].
  split; [exact H1|]. split; [exact H2|]. apply H3; [lia | reflexivity].
Defined.

(** ** Frames of -Infinity *)

(** X13: a frame of [n >= 32] values that are all -Infinity (what
    [getFloatFrequencyData] writes for bins of zero magnitude, as in
    silence) publishes volume +Infinity, whose meter width is 100 with the
    class ['high'], frequency 0, and, whatever the 32 bars held, every bar
    at 100. *)
Theorem neginf_frame_full_scale (n : nat) (bars : list jsnum) :
  (32 <= n)%nat -> length bars = 32%nat ->
  computed_volume (repeat JNInf n) = JPInf /\
  volumePercentage (computed_volume (repeat JNInf n)) = JFin 100 /\
  meter_class (volumePercentage (computed_volume (repeat JNInf n)))
    = mkMeterClasses false false true /\
  computed_frequency (repeat JNInf n) = 0 /\
  updateFrequencyBars (repeat JNInf n) bars = repeat (JFin 100) 32.
Proof.
  intros Hn Hb.
  assert (Hv : computed_volume (repeat JNInf n) = JPInf).
  { apply computed_volume_neginf; [apply repeat_not_nan; discriminate|].
    destruct n; [lia | left; reflexivity]. }
  rewrite Hv. split; [reflexivity|]. split; [reflexivity|]. split; [reflexivity|].
  split; [apply computed_frequency_const; [lia | discriminate]|].
  rewrite updateFrequencyBars_map by exact Hb.
  rewrite (map_ext_in (bar_value (repeat JNInf n)) (fun _ => JFin 100))
    by (intros i Hi; apply in_seq in Hi; apply bar_value_neginf; lia).
  reflexivity.
Qed.

Lemma neginf_frame_full_scale_witness :
  computed_volume (repeat JNInf 2048) = JPInf /\
  updateFrequencyBars (repeat JNInf 2048) zero_bars = repeat (JFin 100) 32.
Proof.
  destruct (neginf_frame_full_scale 2048 zero_bars) as (H1 & _ & _ & _ & H5);
    [lia | reflexivity |].
  split; assumption.
Defined.

(** ** The bars *)

(** X3: for a frame of at least 32 samples, bar [i] (for [i < 32]) is the
    sum of the magnitudes of the [i]-th group of [floor(length / 32)]
    consecutive samples, divided by the group size, times 500, capped at
    100: the bounds check of line 144 never skips a sample. *)
Theorem bar_value_group_mean (values : list jsnum) (i : nat) :
  (32 <= length values)%nat -> (i < 32)%nat ->
  bar_value values i
  = js_min 100 (js_mul_pos (js_div (group_sum values i)
                                   (Z.of_nat (samplesPerBar values))) 500).
Proof.
  intros Hl Hi. unfold bar_value. rewrite bar_sum_group by assumption. reflexivity.
Qed.

Lemma bar_value_group_mean_witness :
  bar_value scenarioB 16
  = js_min 100 (js_mul_pos (js_div (group_sum scenarioB 16)
                                   (Z.of_nat (samplesPerBar scenarioB))) 500).
Proof.
  apply bar_value_group_mean; [apply Nat.leb_le; vm_compute; reflexivity | lia].
Defined.

(** X4: the samples past the first [32 * floor(length / 32)] never reach
    the bars: two frames of the same length that agree on that prefix
    produce the same bars. *)
Theorem bars_ignore_tail (values w : list jsnum) (bars : list jsnum) :
  length w = length values ->
  firstn (32 * samplesPerBar values) w = firstn (32 * samplesPerBar values) values ->
  updateFrequencyBars w bars = updateFrequencyBars values bars.
Proof.
  intros Hlen Hpre.
  assert (Hspb : samplesPerBar w = samplesPerBar values)
    by (unfold samplesPerBar; rewrite Hlen; reflexivity).
  unfold updateFrequencyBars. apply for_upto_ext. intros i acc Hi. f_equal.
  assert (Hsum : bar_sum w i = bar_sum values i).
  { destruct (samplesPerBar values) as [|k] eqn:Hk.
    - unfold bar_sum. rewrite Hspb, Hk. reflexivity.
    - assert (Hl : (32 <= length values)%nat).
      { pose proof (samplesPerBar_fits values). lia. }
      rewrite !bar_sum_group by lia.
      unfold group_sum. rewrite Hspb, Hk. f_equal.
      rewrite !firstn_skipn_comm.
      assert (Hpre' : firstn (i * S k + S k) w = firstn (i * S k + S k) values).
      { rewrite <- (Nat.min_l (i * S k + S k) (32 * S k)) by nia.
        rewrite <- !firstn_firstn, Hpre. reflexivity. }
      rewrite Hpre'. reflexivity. }
  unfold bar_value. rewrite Hsum, Hspb. reflexivity.
Qed.

Lemma bars_ignore_tail_witness :
  updateFrequencyBars (repeat (JFin 0) 32 ++ [JFin 1]) zero_bars
  = updateFrequencyBars (repeat (JFin 0) 33) zero_bars.
Proof.
  apply bars_ignore_tail; vm_compute; reflexivity.
Defined.

(** ** How the operations change the state *)

Lemma analyzeWithTone_ok (s : state) (p : poll_outcome) :
  fst (analyzeWithTone p s) = inl tt.
Proof.
  destruct s as [f v r e b m a af l om ni sc nf po].
  unfold analyzeWithTone, bind, get, try_catch. cbn [analyser isRecording].
  destruct (is_null a || negb r); [reflexivity|].
  destruct p as [|[[|x xs]|]]; try reflexivity.
  apply (proj1 (stop_spec _)).
Qed.

(** An analysis cycle does nothing, or runs [stop()] on the unchanged
    state, or (after publishing the frame [getValue()] returned, or not)
    requests the next frame. *)
Lemma analyzeWithTone_cases (s : state) (p : poll_outcome) :
  (is_null (analyser s) || negb (isRecording s) = true /\ run (analyzeWithTone p) s = s) \/
  (isRecording s = true /\ analyser s <> None /\
   (run (analyzeWithTone p) s = run stop s \/
    exists s1,
      (s1 = s \/ exists values, p = GetValueReturns (Some values) /\ values <> [] /\
                                s1 = run (publish values) s) /\
      run (analyzeWithTone p) s
      = set_animationFrameId (Some (nextFrame s1))
          (set_nextFrame (Pos.succ (nextFrame s1))
             (set_scheduled (scheduled s1 ++ [nextFrame s1]) s1)))).
Proof.
  destruct s as [f v r e b m a af l om ni sc nf po].
  unfold run, analyzeWithTone, bind, get, try_catch. cbn [analyser isRecording].
  destruct a as [a|]; [|left; split; reflexivity].
  destruct r; [|left; split; reflexivity].
  right. split; [reflexivity|]. split; [discriminate|].
  destruct p as [|[[|x xs]|]].
  - left. reflexivity.
  - right. eexists. split; [left; reflexivity | reflexivity].
  - right. eexists.
    split; [right; exists (x :: xs); split; [reflexivity | split; [discriminate | reflexivity]]|].
    reflexivity.
  - right. eexists. split; [left; reflexivity | reflexivity].
Qed.

Lemma publish_fields (values : list jsnum) (s : state) :
  let s' := run (publish values) s in
  frequency s' = computed_frequency values /\
  volume s' = computed_volume values /\
  frequencyBars s' = updateFrequencyBars values (frequencyBars s) /\
  isRecording s' = isRecording s /\ error s' = error s /\
  mic s' = mic s /\ analyser s' = analyser s /\
  animationFrameId s' = animationFrameId s /\ live s' = live s /\
  openMics s' = openMics s /\ scheduled s' = scheduled s /\
  nextFrame s' = nextFrame s /\ pendingOpens s' = pendingOpens s.
Proof. destruct s. repeat split. Qed.

Lemma analyzeWithTone_no_analyser (s : state) (p : poll_outcome) :
  analyser s = None -> run (analyzeWithTone p) s = s.
Proof.
  destruct s as [f v r e b m a af l om ni sc nf po]. cbn [analyser]. intros ->.
  reflexivity.
Qed.

Lemma analyzeWithTone_pendingOpens (s : state) (p : poll_outcome) :
  pendingOpens (run (analyzeWithTone p) s) = pendingOpens s.
Proof.
  destruct (analyzeWithTone_cases s p) as [[_ ->] | (_ & _ & [-> | (s1 & Hs1 & ->)])].
  - reflexivity.
  - apply (stop_spec s).
  - destruct Hs1 as [-> | (values & _ & _ & ->)]; [reflexivity|].
    apply (publish_fields values s).
Qed.

(** [start()] up to the [await], on a stopped state whose platform creates
    both objects: the call is suspended on the opening of the microphone. *)
Lemma start_until_await_opens (o : acquire_outcome)
    f v e b m a af l om ni sc nf po :
  o = OpenResolves \/ o = OpenRejects ->
  start_until_await o (mkState f v false e b m a af l om ni sc nf po)
  = (inl (Some (S ni)),
     mkState f v false EmptyString b (Some (S ni)) (Some ni) af
       (RMic (S ni) :: RAnalyser ni :: l) om (S (S ni)) sc nf (S ni :: po)).
Proof. intros [-> | ->]; reflexivity. Qed.

Lemma start_until_await_opens_run (o : acquire_outcome)
    f v e b m a af l om ni sc nf po :
  o = OpenResolves \/ o = OpenRejects ->
  run (start_until_await o) (mkState f v false e b m a af l om ni sc nf po)
  = mkState f v false EmptyString b (Some (S ni)) (Some ni) af
      (RMic (S ni) :: RAnalyser ni :: l) om (S (S ni)) sc nf (S ni :: po).
Proof. intros Ho. unfold run. rewrite start_until_await_opens by exact Ho. reflexivity. Qed.

Lemma start_until_await_display (o : acquire_outcome) (s : state) :
  let s' := run (start_until_await o) s in
  frequency s' = frequency s /\ volume s' = volume s /\ frequencyBars s' = frequencyBars s.
Proof.
  destruct s as [f v r e b m a af l om ni sc nf po].
  destruct r; [repeat split|]. destruct o; repeat split.
Qed.

(** The settling of [mic.open()] of microphone [m], resolved. *)
Lemma start_after_open_ok (o : acquire_outcome) (m : nat) (p : poll_outcome) (s : state) :
  o <> OpenRejects ->
  run (start_after_open o m p) s
  = run (analyzeWithTone p)
      (set_isRecording true (set_openMics (m :: openMics s)
         (set_pendingOpens (remove_first m (pendingOpens s)) s))).
Proof.
  intros Ho.
  set (Y := set_isRecording true (set_openMics (m :: openMics s)
              (set_pendingOpens (remove_first m (pendingOpens s)) s))).
  pose proof (analyzeWithTone_ok Y p) as Hok.
  destruct o; [| | | congruence |];
    cbv beta iota delta [run start_after_open bind modify try_catch mic_open];
    (match goal with |- ?L = _ =>
       match L with context [analyzeWithTone p ?X] => change X with Y end end);
    destruct (analyzeWithTone p Y) as [[[] | ex] s2]; (reflexivity || discriminate).
Qed.

(** The settling of [mic.open()] of microphone [m], rejected. *)
Lemma start_after_open_rejects (m : nat) (p : poll_outcome) (s : state) :
  run (start_after_open OpenRejects m p) s
  = set_isRecording false (set_error start_error_message
      (set_pendingOpens (remove_first m (pendingOpens s)) s)).
Proof. reflexivity. Qed.

(** [start()] on a stopped state whose platform grants the microphone
    before any other event. *)
Lemma start_resolves (s : state) (p : poll_outcome) :
  isRecording s = false ->
  run (start OpenResolves p) s
  = run (analyzeWithTone p)
      (mkState (frequency s) (volume s) true EmptyString (frequencyBars s)
         (Some (S (nextId s))) (Some (nextId s)) (animationFrameId s)
         (RMic (S (nextId s)) :: RAnalyser (nextId s) :: live s)
         (S (nextId s) :: openMics s) (S (S (nextId s)))
         (scheduled s) (nextFrame s) (pendingOpens s)).
Proof.
  intros Hr. destruct s as [f v r e b m a af l om ni sc nf po]. simpl in Hr. subst r.
  unfold run at 1. unfold start, bind at 1.
  rewrite start_until_await_opens by (left; reflexivity).
  cbv beta iota.
  match goal with |- snd (start_after_open ?o ?m ?p ?X) = _ =>
    change (snd (start_after_open o m p X)) with (run (start_after_open o m p) X) end.
  rewrite start_after_open_ok by discriminate.
  f_equal. cbn. rewrite Nat.eqb_refl. reflexivity.
Qed.

(** [start()] on a stopped state whose platform fails: the error message
    is set and [isRecording] is false; the displayed values, the frame
    callbacks and the open microphones are untouched, and the objects
    created before the failure stay alive. *)
Lemma start_fails (s : state) (o : acquire_outcome) (p : poll_outcome) :
  isRecording s = false -> o <> OpenResolves ->
  let s' := run (start o p) s in
  isRecording s' = false /\ error s' = start_error_message /\
  frequency s' = frequency s /\ volume s' = volume s /\
  frequencyBars s' = frequencyBars s /\
  animationFrameId s' = animationFrameId s /\ scheduled s' = scheduled s /\
  openMics s' = openMics s /\
  (o = AnalyserCtorThrows -> live s' = live s /\ mic s' = mic s /\
     analyser s' = analyser s /\ pendingOpens s' = pendingOpens s).
Proof.
  intros Hr Ho. destruct s as [f v r e b m a af l om ni sc nf po]. simpl in Hr. subst r.
  destruct o; [| | | | congruence]; repeat split; try discriminate;
    intros _; repeat split.
Qed.

Lemma fire_frame_ok (s : state) (p : poll_outcome) : fst (fire_frame p s) = inl tt.
Proof.
  destruct s as [f v r e b m a af l om ni sc nf po].
  unfold fire_frame, bind, get. cbn [scheduled].
  destruct sc as [|id rest]; [reflexivity|]. apply analyzeWithTone_ok.
Qed.

Lemma fire_frames_cons (p : poll_outcome) (ps : list poll_outcome) (s : state) :
  run (fire_frames (p :: ps)) s = run (fire_frames ps) (run (fire_frame p) s).
Proof.
  unfold run. simpl. unfold bind.
  pose proof (fire_frame_ok s p) as H.
  destruct (fire_frame p s) as [[u|ex] s']; [destruct u; reflexivity | discriminate].
Qed.

(** [fire_frame] runs a cycle on the state without the fired callback. *)
Lemma fire_frame_cases (s : state) (p : poll_outcome) :
  run (fire_frame p) s = s \/
  exists id rest, scheduled s = id :: rest /\
    run (fire_frame p) s = run (analyzeWithTone p) (set_scheduled rest s).
Proof.
  destruct s as [f v r e b m a af l om ni sc nf po].
  unfold run, fire_frame, bind, get. cbn [scheduled].
  destruct sc as [|id rest]; [left; reflexivity|].
  right. exists id, rest. split; reflexivity.
Qed.

Lemma start_when_recording (s : state) (o : acquire_outcome) (p : poll_outcome) :
  isRecording s = true -> start o p s = (inl tt, s).
Proof.
  intros H. destruct s as [f v r e b m a af l om ni sc nf po]. simpl in H. subst r.
  reflexivity.
Qed.

(** ** Start twice *)

(** X5: on a stopped component, a click on Start that the platform grants
    before any other event, with a first [getValue()] that does not throw,
    leaves the component recording with an empty error field; a second
    click on Start, whatever the platform would do, then changes nothing
    and creates no object. *)
Theorem start_twice_is_start_once (s : state) (p : poll_outcome)
    (o' : acquire_outcome) (p' : poll_outcome) :
  isRecording s = false -> p <> GetValueThrows ->
  let s1 := run (start OpenResolves p) s in
  isRecording s1 = true /\ error s1 = EmptyString /\
  run (start o' p') s1 = s1.
Proof.
  intros Hr Hp s1.
  assert (Hrec : isRecording s1 = true /\ error s1 = EmptyString).
  { unfold s1. rewrite (start_resolves s p Hr).
    destruct p as [|[[|x xs]|]]; [congruence| | |]; split; reflexivity. }
  split; [apply Hrec|]. split; [apply Hrec|].
  unfold run at 1. rewrite start_when_recording by apply Hrec. reflexivity.
Qed.

Lemma start_twice_is_start_once_witness :
  isRecording session_B = true /\ error session_B = EmptyString /\
  run (start OpenRejects GetValueThrows) session_B = session_B.
Proof.
  apply start_twice_is_start_once; [reflexivity | discriminate].
Defined.

(** ** What analysis cycles never do *)

Lemma analyzeWithTone_error_recording (s : state) (p : poll_outcome) :
  error (run (analyzeWithTone p) s) = error s /\
  (isRecording (run (analyzeWithTone p) s) = true -> isRecording s = true).
Proof.
  destruct (analyzeWithTone_cases s p) as [[_ ->] | (Hr & _ & [-> | (s1 & Hs1 & ->)])].
  - split; [reflexivity | tauto].
  - destruct (stop_spec s) as (_ & _ & _ & He & Hrec & _).
    rewrite He, Hrec. split; [reflexivity | discriminate].
  - split; [|intros _; exact Hr].
    destruct Hs1 as [-> | (values & _ & _ & ->)]; [reflexivity|].
    apply (publish_fields values s).
Qed.

(** X6: animation-frame callbacks, in any number and whatever [getValue()]
    does in each, never change the error field and never turn
    [isRecording] on. *)
Theorem frames_keep_error (ps : list poll_outcome) (s : state) :
  error (run (fire_frames ps) s) = error s /\
  (isRecording (run (fire_frames ps) s) = true -> isRecording s = true).
Proof.
  revert s. induction ps as [|p ps IH]; intros s; [split; [reflexivity | tauto]|].
  rewrite fire_frames_cons.
  destruct (IH (run (fire_frame p) s)) as [He Hr].
  assert (Hstep : error (run (fire_frame p) s) = error s /\
    (isRecording (run (fire_frame p) s) = true -> isRecording s = true)).
  { destruct (fire_frame_cases s p) as [Heq | (id & rest & _ & Heq)]; rewrite Heq;
      [split; [reflexivity | tauto]|].
    apply (analyzeWithTone_error_recording (set_scheduled rest s) p). }
  destruct Hstep as [He1 Hr1].
  split; [rewrite He; exact He1 | intros H; apply Hr1, Hr, H].
Qed.

(** ** The displayed values in every reachable state *)

Lemma display_ok_schedule (x : option positive) (y : positive) (z : list positive)
    (s : state) :
  display_ok (set_animationFrameId x (set_nextFrame y (set_scheduled z s))) <->
  display_ok s.
Proof. destruct s. reflexivity. Qed.

Lemma display_ok_analyze (s : state) (p : poll_outcome) :
  platform_poll p -> display_ok s -> display_ok (run (analyzeWithTone p) s).
Proof.
  intros Hp (Hb & Hf & Hv).
  destruct (analyzeWithTone_cases s p) as [[_ ->] | (_ & _ & [-> | (s1 & Hs1 & ->)])].
  - split; [exact Hb | split; assumption].
  - destruct (stop_spec s) as (_ & Hf' & Hv' & _ & _ & Hb' & _).
    unfold display_ok. rewrite Hf', Hv', Hb'. split; [reflexivity | split; assumption].
  - apply display_ok_schedule.
    destruct Hs1 as [-> | (values & -> & Hne & ->)].
    + split; [exact Hb | split; assumption].
    + destruct (publish_fields values s) as (Hf' & Hv' & Hb' & _).
      unfold display_ok. rewrite Hf', Hv', Hb'.
      split; [|split].
      * rewrite updateFrequencyBars_map by exact Hb.
        rewrite length_map, length_seq. reflexivity.
      * apply computed_frequency_bounds, Hne.
      * right. apply computed_volume_nonneg; [exact Hne | exact Hp].
Qed.

Lemma display_ok_step (s s' : state) : display_ok s -> step s s' -> display_ok s'.
Proof.
  intros Hd Hstep. destruct Hstep as [o s | o m p s _ Hp | p s Hp | s | s].
  - destruct (start_until_await_display o s) as (Hf & Hv & Hb).
    destruct Hd as (Hb0 & Hf0 & Hv0).
    unfold display_ok. rewrite Hf, Hv, Hb. split; [exact Hb0 | split; assumption].
  - destruct (acquire_outcome_eq_dec o OpenRejects) as [-> | Ho].
    + rewrite start_after_open_rejects. destruct s. exact Hd.
    + rewrite start_after_open_ok by exact Ho.
      apply display_ok_analyze; [exact Hp|]. destruct s. exact Hd.
  - destruct (fire_frame_cases s p) as [-> | (id & rest & _ & ->)]; [exact Hd|].
    apply display_ok_analyze; [exact Hp|]. destruct s. exact Hd.
  - destruct (stop_spec s) as (_ & Hf & Hv & _ & _ & Hb & _).
    destruct Hd as (_ & Hf0 & Hv0).
    unfold display_ok. rewrite Hf, Hv, Hb. split; [reflexivity | split; assumption].
  - destruct (stop_spec s) as (_ & Hf & Hv & _ & _ & Hb & _).
    destruct Hd as (_ & Hf0 & Hv0).
    unfold display_ok, onUnmounted_hook. rewrite Hf, Hv, Hb.
    split; [reflexivity | split; assumption].
Qed.

(** X7: in every state the component can reach, with the events in any
    order (clicks on Start while an earlier [mic.open()] is pending
    included) and whatever the platform does, there are 32 bars, the
    frequency lies in [0, 22050], and the volume is its initial -100 or
    non-negative (a finite value or +Infinity). *)
Theorem reachable_display_ok (s : state) : reachable s -> display_ok s.
Proof.
  induction 1 as [|s s' _ IH Hstep].
  - split; [reflexivity|]. split; [cbn; lia | left; reflexivity].
  - apply (display_ok_step s s' IH Hstep).
Qed.

Lemma reachable_display_ok_witness :
  display_ok (run (start_until_await OpenResolves) initial_state).
Proof.
  apply reachable_display_ok.
  apply (reachable_step initial_state); [exact reachable_init|].
  exact (step_click_start OpenResolves initial_state).
Defined.

(** ** What [stop()] releases *)

Lemma stop_live (s : state) :
  live (run stop s)
  = filter (fun x => negb (held_by_handles s x)) (live s).
Proof.
  destruct s as [f v r e b m a af l om ni sc nf po].
  unfold held_by_handles. cbn [mic analyser].
  destruct af, m as [m|], a as [a|]; cbn;
    induction l as [|[x|x] l IH]; cbn; try reflexivity;
    repeat match goal with |- context [Nat.eqb ?i ?j] => destruct (Nat.eqb i j) end;
    cbn; congruence.
Qed.

Lemma stop_openMics (s : state) :
  openMics (run stop s)
  = match mic s with
    | Some m => filter (fun x => negb (Nat.eqb x m)) (openMics s)
    | None => openMics s
    end.
Proof.
  destruct s as [f v r e b m a af l om ni sc nf po]. cbn [mic].
  destruct af, m, a; reflexivity.
Qed.

Lemma stop_scheduled (s : state) :
  scheduled (run stop s)
  = match animationFrameId s with
    | Some id => filter (fun x => negb (Pos.eqb x id)) (scheduled s)
    | None => scheduled s
    end.
Proof.
  destruct s as [f v r e b m a af l om ni sc nf po]. cbn [animationFrameId].
  destruct af, m, a; reflexivity.
Qed.

Lemma stop_handles (s : state) :
  (forall r, In r (live (run stop s)) <-> In r (live s) /\ held_by_handles s r = false) /\
  (forall m, In m (openMics (run stop s)) <-> In m (openMics s) /\ mic s <> Some m) /\
  (forall id, In id (scheduled (run stop s))
              <-> In id (scheduled s) /\ animationFrameId s <> Some id).
Proof.
  split; [|split].
  - intros r. rewrite stop_live, filter_In, negb_true_iff. reflexivity.
  - intros x. rewrite stop_openMics. destruct (mic s) as [m|].
    + rewrite filter_In, negb_true_iff, Nat.eqb_neq.
      split; intros [H1 H2]; split; try exact H1; congruence.
    + split; [intros H; split; [exact H | discriminate] | intros [H _]; exact H].
  - intros x. rewrite stop_scheduled. destruct (animationFrameId s) as [id|].
    + rewrite filter_In, negb_true_iff, Pos.eqb_neq.
      split; intros [H1 H2]; split; try exact H1; congruence.
    + split; [intros H; split; [exact H | discriminate] | intros [H _]; exact H].
Qed.

(** X8: [stop()] disposes exactly the objects the [mic] and [analyser]
    handles point to, closes exactly that microphone and cancels exactly
    the callback recorded in [animationFrameId]: every other object stays
    alive, every other microphone open, every other callback pending. *)
Theorem stop_releases_handles (s : state) :
  (forall r, In r (live (run stop s)) <-> In r (live s) /\ held_by_handles s r = false) /\
  (forall m, In m (openMics (run stop s)) <-> In m (openMics s) /\ mic s <> Some m) /\
  (forall id, In id (scheduled (run stop s))
              <-> In id (scheduled s) /\ animationFrameId s <> Some id).
Proof. apply stop_handles. Qed.

(** ** The resources of a session *)

Lemma nil_of_no_member {A : Type} (l : list A) : (forall x, ~ In x l) -> l = [].
Proof. destruct l as [|x l]; [reflexivity|]. intros H. exfalso. apply (H x). left; reflexivity. Qed.

(** [stop()] on a state whose live objects, open microphones and pending
    callbacks are all the ones its handles record leaves none of them. *)
Lemma stop_clears_tracked (s : state) :
  (forall r, In r (live s) -> held_by_handles s r = true) ->
  (forall m, In m (openMics s) -> mic s = Some m) ->
  (forall id, In id (scheduled s) -> animationFrameId s = Some id) ->
  isRecording (run stop s) = false /\
  live (run stop s) = [] /\ openMics (run stop s) = [] /\ scheduled (run stop s) = [].
Proof.
  intros Hl Ho Hs.
  destruct (stop_handles s) as (Hl' & Ho' & Hs').
  split; [apply (stop_spec s)|]. split; [|split]; apply nil_of_no_member.
  - intros r Hr. apply Hl' in Hr. destruct Hr as [Hr Hf]. rewrite Hl in Hf by exact Hr.
    discriminate.
  - intros m Hm. apply Ho' in Hm. destruct Hm as [Hm Hn]. apply Hn, Ho, Hm.
  - intros id Hi. apply Hs' in Hi. destruct Hi as [Hi Hn]. apply Hn, Hs, Hi.
Qed.

Lemma session_ok_stop (s : state) :
  pendingOpens s = [] ->
  (if isRecording s then
     exists m a, mic s = Some m /\ analyser s = Some a /\
       live s = [RMic m; RAnalyser a] /\ openMics s = [m] /\
       (scheduled s = [] \/ exists id, scheduled s = [id] /\ animationFrameId s = Some id)
   else live s = [] /\ openMics s = [] /\ scheduled s = []) ->
  session_ok (run stop s).
Proof.
  intros Hpo H. unfold session_ok.
  assert (Hc : isRecording (run stop s) = false /\
    live (run stop s) = [] /\ openMics (run stop s) = [] /\ scheduled (run stop s) = []).
  { apply stop_clears_tracked; destruct (isRecording s).
    - destruct H as (m & a & Hm & Ha & Hl & _ & _).
      intros r Hr. rewrite Hl in Hr. unfold held_by_handles. rewrite Hm, Ha.
      destruct Hr as [<- | [<- | []]]; apply Nat.eqb_refl.
    - destruct H as (Hl & _ & _). rewrite Hl. intros r [].
    - destruct H as (m & a & Hm & _ & _ & Ho & _).
      intros x Hx. rewrite Ho in Hx. destruct Hx as [<- | []]. exact Hm.
    - destruct H as (_ & Ho & _). rewrite Ho. intros x [].
    - destruct H as (m & a & _ & _ & _ & _ & [Hs | (id & Hs & Hid)]);
        intros x Hx; rewrite Hs in Hx; [destruct Hx|].
      destruct Hx as [<- | []]. exact Hid.
    - destruct H as (_ & _ & Hs). rewrite Hs. intros x []. }
  destruct (stop_spec s) as (_ & _ & _ & _ & _ & _ & _ & _ & _ & Hp).
  destruct Hc as (-> & Hl & Ho & Hs).
  split; [rewrite Hp; exact Hpo | split; [exact Hl | split; assumption]].
Qed.

(** An analysis cycle run on a state whose callback has been consumed. *)
Lemma session_ok_analyze (s : state) (p : poll_outcome) :
  pendingOpens s = [] ->
  (if isRecording s then
     exists m a, mic s = Some m /\ analyser s = Some a /\
       live s = [RMic m; RAnalyser a] /\ openMics s = [m] /\ scheduled s = []
   else live s = [] /\ openMics s = [] /\ scheduled s = []) ->
  session_ok (run (analyzeWithTone p) s).
Proof.
  intros Hpo H.
  destruct (analyzeWithTone_cases s p) as [[Hguard ->] | (Hr & Ha & [-> | (s1 & Hs1 & ->)])].
  - unfold session_ok. split; [exact Hpo|]. destruct (isRecording s) eqn:Hr; [|exact H].
    destruct H as (m & a & _ & Ha & _). rewrite Ha in Hguard. discriminate.
  - apply session_ok_stop; [exact Hpo|]. rewrite Hr in *.
    destruct H as (m & a & Hm & Ha' & Hl & Ho & Hs).
    exists m, a. repeat split; try assumption. left; exact Hs.
  - rewrite Hr in H. destruct H as (m & a & Hm & Ha' & Hl & Ho & Hs).
    assert (Hfields : isRecording s1 = true /\ mic s1 = Some m /\ analyser s1 = Some a /\
              live s1 = [RMic m; RAnalyser a] /\ openMics s1 = [m] /\ scheduled s1 = [] /\
              pendingOpens s1 = []).
    { destruct Hs1 as [-> | (values & _ & _ & ->)]; [repeat split; assumption|].
      destruct (publish_fields values s)
        as (_ & _ & _ & Hr1 & _ & Hm1 & Ha1 & _ & Hl1 & Ho1 & Hs1' & _ & Hp1).
      rewrite Hr1, Hm1, Ha1, Hl1, Ho1, Hs1', Hp1. repeat split; assumption. }
    destruct Hfields as (Hr1 & Hm1 & Ha1 & Hl1 & Ho1 & Hsc1 & Hp1).
    unfold session_ok. simpl. rewrite Hr1. split; [exact Hp1|].
    exists m, a, (nextFrame s1). rewrite Hsc1. repeat split; assumption.
Qed.

Lemma session_ok_clean_step_start (s : state) (o : acquire_outcome) (p : poll_outcome) :
  session_ok s -> clean_outcome o -> session_ok (run (start o p) s).
Proof.
  intros H Ho. destruct (isRecording s) eqn:Hr.
  - unfold run. rewrite start_when_recording by exact Hr. exact H.
  - unfold session_ok in H. rewrite Hr in H. destruct H as (Hpo & Hl & Hom & Hs).
    destruct Ho as [-> | ->].
    + rewrite start_resolves by exact Hr. apply session_ok_analyze; [exact Hpo|]. simpl.
      exists (S (nextId s)), (nextId s). rewrite Hl, Hom, Hs. repeat split.
    + destruct (start_fails s AnalyserCtorThrows p Hr ltac:(discriminate))
        as (Hr' & _ & _ & _ & _ & _ & Hs' & Ho' & Hrest).
      destruct (Hrest eq_refl) as (Hl' & _ & _ & Hp').
      unfold session_ok. rewrite Hr', Hl', Hs', Ho', Hp'.
      split; [exact Hpo | split; [exact Hl | split; assumption]].
Qed.

Lemma session_ok_fire_frame (s : state) (p : poll_outcome) :
  session_ok s -> session_ok (run (fire_frame p) s).
Proof.
  intros H. destruct (fire_frame_cases s p) as [-> | (id & rest & Hsc & ->)]; [exact H|].
  unfold session_ok in H. destruct H as [Hpo H].
  apply session_ok_analyze; [exact Hpo|]. simpl.
  destruct (isRecording s).
  - destruct H as (m & a & id' & Hm & Ha & Hl & Ho & Hs & _).
    rewrite Hs in Hsc. injection Hsc as _ <-.
    exists m, a. repeat split; assumption.
  - destruct H as (_ & _ & Hs). rewrite Hs in Hsc. discriminate.
Qed.

Lemma session_ok_stop_step (s : state) : session_ok s -> session_ok (run stop s).
Proof.
  intros [Hpo H]. apply session_ok_stop; [exact Hpo|].
  destruct (isRecording s); [|exact H].
  destruct H as (m & a & id & Hm & Ha & Hl & Ho & Hs & Hid).
  exists m, a. repeat split; try assumption. right. exists id. split; assumption.
Qed.

Lemma session_ok_of_clean_reachable (s : state) : clean_reachable s -> session_ok s.
Proof.
  induction 1 as [| o p s _ IH Ho | p s _ IH | s _ IH | s _ IH].
  - unfold session_ok. simpl. repeat split.
  - apply session_ok_clean_step_start; assumption.
  - apply session_ok_fire_frame, IH.
  - apply session_ok_stop_step, IH.
  - apply session_ok_stop_step, IH.
Qed.

(** X9: in every state of a serial schedule ([clean_reachable]: every
    click on Start has its [mic.open()] settled before the next event, and
    fails, if it does, before any platform object exists), the session's
    resources are in order: no [mic.open()] is pending; while recording,
    exactly the analyser and the microphone of the handles are alive, that
    microphone is open and exactly one animation frame is pending, the one
    in [animationFrameId]; while stopped, nothing is alive, open or
    pending. *)
Theorem clean_reachable_session_ok (s : state) : clean_reachable s -> session_ok s.
Proof. apply session_ok_of_clean_reachable. Qed.

Lemma clean_reachable_session_ok_witness : session_ok session_B.
Proof.
  apply clean_reachable_session_ok.
  apply clean_start; [constructor | left; reflexivity].
Defined.

(** X10: unmounting the component from any state of a serial schedule (as
    in X9) leaves it stopped with no platform object alive, no microphone
    open and no animation frame pending. *)
Theorem unmount_releases_everything (s : state) :
  clean_reachable s ->
  let s' := run onUnmounted_hook s in
  isRecording s' = false /\ live s' = [] /\ openMics s' = [] /\ scheduled s' = [].
Proof.
  intros H s'.
  assert (Hok : session_ok s') by (apply session_ok_of_clean_reachable, clean_unmount, H).
  assert (Hr : isRecording s' = false) by apply (stop_spec s).
  destruct Hok as [_ Hok]. rewrite Hr in Hok. split; [exact Hr | exact Hok].
Qed.

Lemma unmount_releases_everything_witness :
  live (run onUnmounted_hook session_B) = [] /\ scheduled (run onUnmounted_hook session_B) = [].
Proof.
  destruct (unmount_releases_everything session_B) as (_ & Hl & _ & Hs).
  - apply clean_start; [constructor | left; reflexivity].
  - split; assumption.
Defined.

(** ** Events while [mic.open()] is pending *)

Lemma held_by_handles_ext (s t : state) (r : resource) :
  mic s = mic t -> analyser s = analyser t -> held_by_handles s r = held_by_handles t r.
Proof. intros Hm Ha. unfold held_by_handles. rewrite Hm, Ha. reflexivity. Qed.

(** An object alive and held by no handle, and a microphone open and not
    the one of the [mic] handle, stay so through [stop()]. *)
Lemma stop_keeps_orphan (s : state) (r : resource) :
  In r (live s) -> held_by_handles s r = false ->
  In r (live (run stop s)) /\ held_by_handles (run stop s) r = false.
Proof.
  intros H1 H2. destruct (stop_handles s) as (Hl & _ & _).
  destruct (stop_spec s) as (_ & _ & _ & _ & _ & _ & Hm & Ha & _).
  split; [apply Hl; split; assumption|].
  unfold held_by_handles. rewrite Hm, Ha. destruct r; reflexivity.
Qed.

Lemma stop_keeps_open (s : state) (x : nat) :
  In x (openMics s) -> mic s <> Some x ->
  In x (openMics (run stop s)) /\ mic (run stop s) <> Some x.
Proof.
  intros H1 H2. destruct (stop_handles s) as (_ & Ho & _).
  destruct (stop_spec s) as (_ & _ & _ & _ & _ & _ & Hm & _).
  split; [apply Ho; split; assumption | rewrite Hm; discriminate].
Qed.

(** ... and through an analysis cycle. *)
Lemma analyzeWithTone_keeps (s : state) (p : poll_outcome) (r : resource) (x : nat) :
  let s' := run (analyzeWithTone p) s in
  (In r (live s) -> held_by_handles s r = false ->
   In r (live s') /\ held_by_handles s' r = false) /\
  (In x (openMics s) -> mic s <> Some x -> In x (openMics s') /\ mic s' <> Some x).
Proof.
  intros s'. unfold s'.
  destruct (analyzeWithTone_cases s p) as [[_ ->] | (_ & _ & [-> | (s1 & Hs1 & ->)])].
  - split; intros H1 H2; split; assumption.
  - split; [apply stop_keeps_orphan | apply stop_keeps_open].
  - assert (Hk : live s1 = live s /\ openMics s1 = openMics s /\
                 mic s1 = mic s /\ analyser s1 = analyser s).
    { destruct Hs1 as [-> | (values & _ & _ & ->)]; [repeat split|].
      destruct (publish_fields values s) as (_ & _ & _ & _ & _ & Hm & Ha & _ & Hl & Ho & _).
      repeat split; assumption. }
    destruct Hk as (Hl & Ho & Hm & Ha).
    split; intros H1 H2; split.
    + cbn. rewrite Hl. exact H1.
    + rewrite (held_by_handles_ext _ s r); [exact H2 | cbn; exact Hm | cbn; exact Ha].
    + cbn. rewrite Ho. exact H1.
    + cbn. rewrite Hm. exact H2.
Qed.

(** ... and through the settling of any [mic.open()]. *)
Lemma start_after_open_keeps (s : state) (o : acquire_outcome) (m : nat) (p : poll_outcome)
    (r : resource) (x : nat) :
  let s' := run (start_after_open o m p) s in
  (In r (live s) -> held_by_handles s r = false ->
   In r (live s') /\ held_by_handles s' r = false) /\
  (In x (openMics s) -> mic s <> Some x -> In x (openMics s') /\ mic s' <> Some x).
Proof.
  intros s'. unfold s'.
  destruct (acquire_outcome_eq_dec o OpenRejects) as [-> | Ho].
  - rewrite start_after_open_rejects.
    split; intros H1 H2; split; [exact H1 | exact H2 | exact H1 | exact H2].
  - rewrite start_after_open_ok by exact Ho.
    destruct (analyzeWithTone_keeps (set_isRecording true (set_openMics (m :: openMics s)
         (set_pendingOpens (remove_first m (pendingOpens s)) s))) p r x) as [Hr Hx].
    split; intros H1 H2; [apply Hr | apply Hx]; try exact H1; try exact H2.
    right. exact H1.
Qed.

(** A granted [mic.open()] of a microphone no handle points to leaves it
    open. *)
Lemma start_after_open_opens (s : state) (m : nat) (p : poll_outcome) :
  mic s <> Some m ->
  In m (openMics (run (start_after_open OpenResolves m p) s)) /\
  mic (run (start_after_open OpenResolves m p) s) <> Some m.
Proof.
  intros Hm. rewrite start_after_open_ok by discriminate.
  apply (proj2 (analyzeWithTone_keeps _ p (RMic m) m)); [left; reflexivity | exact Hm].
Qed.

(** Two clicks on Start on a stopped state, both suspended at the [await]. *)
Lemma two_clicks (s : state) :
  isRecording s = false ->
  run (start_until_await OpenResolves) (run (start_until_await OpenResolves) s)
  = mkState (frequency s) (volume s) false EmptyString (frequencyBars s)
      (Some (S (S (S (nextId s))))) (Some (S (S (nextId s)))) (animationFrameId s)
      (RMic (S (S (S (nextId s)))) :: RAnalyser (S (S (nextId s)))
         :: RMic (S (nextId s)) :: RAnalyser (nextId s) :: live s)
      (openMics s) (S (S (S (S (nextId s))))) (scheduled s) (nextFrame s)
      (S (S (S (nextId s))) :: S (nextId s) :: pendingOpens s).
Proof.
  intros Hr. destruct s as [f v r e b m a af l om ni sc nf po]. simpl in Hr. subst r.
  rewrite !start_until_await_opens_run by (left; reflexivity). reflexivity.
Qed.

(** X11: on a stopped component, a second click on Start while the first
    [mic.open()] is pending starts a second acquisition (Start is not
    disabled during the [await], and [isRecording] is still false).  When
    both are granted, whatever the two first cycles read, the first
    analyser and the first microphone are alive with no handle pointing to
    them and that microphone is open; unmounting the component (which runs
    [stop()]) then leaves them alive and the microphone open. *)
Theorem overlapping_starts_leak (s : state) (p1 p2 : poll_outcome) :
  isRecording s = false ->
  let a1 := nextId s in
  let m1 := S (nextId s) in
  let m2 := S (S (S (nextId s))) in
  let s2 := run (start_until_await OpenResolves) (run (start_until_await OpenResolves) s) in
  let s4 := run (start_after_open OpenResolves m2 p2)
              (run (start_after_open OpenResolves m1 p1) s2) in
  let s5 := run onUnmounted_hook s4 in
  In (RAnalyser a1) (live s4) /\ held_by_handles s4 (RAnalyser a1) = false /\
  In (RMic m1) (live s4) /\ held_by_handles s4 (RMic m1) = false /\
  In m1 (openMics s4) /\ mic s4 <> Some m1 /\
  In (RAnalyser a1) (live s5) /\ In (RMic m1) (live s5) /\ In m1 (openMics s5).
Proof.
  intros Hr. cbv zeta.
  remember (run (start_until_await OpenResolves) (run (start_until_await OpenResolves) s))
    as s2 eqn:Hs2.
  rewrite two_clicks in Hs2 by exact Hr.
  assert (HA : In (RAnalyser (nextId s)) (live s2) /\
               held_by_handles s2 (RAnalyser (nextId s)) = false).
  { rewrite Hs2. split; [do 3 right; left; reflexivity|].
    cbn. apply Nat.eqb_neq. lia. }
  assert (HM : In (RMic (S (nextId s))) (live s2) /\
               held_by_handles s2 (RMic (S (nextId s))) = false).
  { rewrite Hs2. split; [do 2 right; left; reflexivity|].
    cbn. apply Nat.eqb_neq. lia. }
  assert (Hmic : mic s2 <> Some (S (nextId s))).
  { rewrite Hs2. cbn. intros H. injection H. lia. }
  set (s3 := run (start_after_open OpenResolves (S (nextId s)) p1) s2).
  set (s4 := run (start_after_open OpenResolves (S (S (S (nextId s)))) p2) s3).
  destruct (start_after_open_opens s2 (S (nextId s)) p1 Hmic) as [Ho3 Hm3].
  destruct (start_after_open_keeps s2 OpenResolves (S (nextId s)) p1
              (RAnalyser (nextId s)) O) as [HkA3 _].
  destruct (start_after_open_keeps s2 OpenResolves (S (nextId s)) p1
              (RMic (S (nextId s))) O) as [HkM3 _].
  destruct (HkA3 (proj1 HA) (proj2 HA)) as [HA3 HA3'].
  destruct (HkM3 (proj1 HM) (proj2 HM)) as [HM3 HM3'].
  fold s3 in Ho3, Hm3, HA3, HA3', HM3, HM3'.
  destruct (start_after_open_keeps s3 OpenResolves (S (S (S (nextId s)))) p2
              (RAnalyser (nextId s)) (S (nextId s))) as [HkA4 Hko4].
  destruct (start_after_open_keeps s3 OpenResolves (S (S (S (nextId s)))) p2
              (RMic (S (nextId s))) O) as [HkM4 _].
  destruct (HkA4 HA3 HA3') as [HA4 HA4'].
  destruct (HkM4 HM3 HM3') as [HM4 HM4'].
  destruct (Hko4 Ho3 Hm3) as [Ho4 Hm4].
  fold s4 in HA4, HA4', HM4, HM4', Ho4, Hm4.
  destruct (stop_keeps_orphan s4 _ HA4 HA4') as [HA5 _].
  destruct (stop_keeps_orphan s4 _ HM4 HM4') as [HM5 _].
  destruct (stop_keeps_open s4 _ Ho4 Hm4) as [Ho5 _].
  unfold onUnmounted_hook.
  repeat split; assumption.
Qed.

Lemma overlapping_starts_leak_witness :
  let s4 := run (start_after_open OpenResolves 3 (GetValueReturns None))
              (run (start_after_open OpenResolves 1 (GetValueReturns None))
                 (run (start_until_await OpenResolves)
                    (run (start_until_await OpenResolves) initial_state))) in
  In (RAnalyser 0) (live (run onUnmounted_hook s4)) /\
  In 1%nat (openMics (run onUnmounted_hook s4)).
Proof.
  destruct (overlapping_starts_leak initial_state (GetValueReturns None)
              (GetValueReturns None) eq_refl)
    as (_ & _ & _ & _ & _ & _ & HA & _ & Ho).
  split; [exact HA | exact Ho].
Defined.

(** X12: on a stopped component, an unmount while the first [mic.open()]
    is pending runs [stop()] on the half-built session; when the request
    is then granted, the rest of [start()] still runs: the component is
    recording with both handles null, the microphone is open but already
    disposed, and a later [stop()] cannot close it. *)
Theorem unmount_during_open_keeps_mic_open (s : state) (p : poll_outcome) :
  isRecording s = false ->
  let m := S (nextId s) in
  let s1 := run onUnmounted_hook (run (start_until_await OpenResolves) s) in
  let s2 := run (start_after_open OpenResolves m p) s1 in
  isRecording s2 = true /\ mic s2 = None /\ analyser s2 = None /\
  In m (openMics s2) /\ ~ In (RMic m) (live s2) /\
  In m (openMics (run stop s2)).
Proof.
  intros Hr. cbv zeta.
  remember (run onUnmounted_hook (run (start_until_await OpenResolves) s)) as s1 eqn:Hs1.
  assert (H1 : mic s1 = None /\ analyser s1 = None /\ ~ In (RMic (S (nextId s))) (live s1)).
  { rewrite Hs1. unfold onUnmounted_hook.
    destruct (stop_spec (run (start_until_await OpenResolves) s))
      as (_ & _ & _ & _ & _ & _ & Hm & Ha & _).
    destruct (stop_handles (run (start_until_await OpenResolves) s)) as (Hl & _ & _).
    split; [exact Hm|]. split; [exact Ha|].
    intros Hin. apply Hl in Hin. destruct Hin as [_ Hh]. revert Hh.
    clear Hs1 Hl Hm Ha.
    destruct s as [f v r e b m a af l om ni sc nf po]. simpl in Hr. subst r.
    rewrite start_until_await_opens_run by (left; reflexivity).
    cbn. rewrite Nat.eqb_refl. discriminate. }
  destruct H1 as (Hm1 & Ha1 & Hl1).
  rewrite start_after_open_ok by discriminate.
  rewrite analyzeWithTone_no_analyser by exact Ha1.
  split; [reflexivity|]. split; [exact Hm1|]. split; [exact Ha1|].
  split; [left; reflexivity|]. split; [exact Hl1|].
  rewrite stop_openMics. cbn [mic set_isRecording set_openMics set_pendingOpens].
  rewrite Hm1. left. reflexivity.
Qed.

Lemma unmount_during_open_keeps_mic_open_witness :
  let s2 := run (start_after_open OpenResolves 1 (GetValueReturns None))
              (run onUnmounted_hook (run (start_until_await OpenResolves) initial_state)) in
  isRecording s2 = true /\ In 1%nat (openMics (run stop s2)).
Proof.
  destruct (unmount_during_open_keeps_mic_open initial_state (GetValueReturns None) eq_refl)
    as (Hr & _ & _ & _ & _ & Ho).
  split; [exact Hr | exact Ho].
Defined.
